(** * easy-gameengine: the script parser and the command driver of [main.cpp]

    A shallow embedding of [src/main.cpp]: the parameter classifier
    [parse_param], the script parser [parse], the command table
    [COMMAND_FN_MAP], the image command [command_image], the preload pass and
    the frame loop of [main].

    C++ behaviour that is not a normal return is kept visible: a function
    either returns, or lets an exception escape, or has undefined behaviour
    (an access outside a [std::vector], [back()] of an empty [std::string],
    signed overflow). *)

From Stdlib Require Import ZArith Ascii String List Bool Lia.
From stdpp Require Import base option list strings gmap fin_maps sorting.

Local Open Scope string_scope.
Local Open Scope list_scope.
Local Open Scope Z_scope.

(** ** Outcomes of C++ code *)

(** The exceptions the standard library raises in this program. *)
Inductive exception : Type :=
  | invalid_argument (what : string)
  | out_of_range (what : string)
  | bad_function_call.

(** A side-effect free computation: a value, an exception, or undefined
    behaviour. *)
Inductive result (A : Type) : Type :=
  | Normal (a : A)
  | Throw (e : exception)
  | UB.
Arguments Normal {A} a.
Arguments Throw {A} e.
Arguments UB {A}.

#[global] Instance result_ret : MRet result := fun A a => Normal a.
#[global] Instance result_bind : MBind result := fun A B f r =>
  match r with
  | Normal a => f a
  | Throw e => Throw e
  | UB => UB
  end.

(** [try { body } catch (const std::exception&) { handler }]: every exception
    of this program derives from [std::exception]. *)
Definition try_catch {A} (body : result A) (handler : exception -> result A) : result A :=
  match body with
  | Throw e => handler e
  | r => r
  end.

(** A computation over a mutable store [S]: it returns with a final store,
    raises with the store as it was at the [throw], or is undefined. *)
Inductive outcome (S A : Type) : Type :=
  | Returns (a : A) (s : S)
  | Throws (e : exception) (s : S)
  | Undefined.
Arguments Returns {S A} a s.
Arguments Throws {S A} e s.
Arguments Undefined {S A}.

Definition M (S A : Type) : Type := S -> outcome S A.

#[global] Instance M_ret {S} : MRet (M S) := fun A a s => Returns a s.
#[global] Instance M_bind {S} : MBind (M S) := fun A B f m s =>
  match m s with
  | Returns a s' => f a s'
  | Throws e s' => Throws e s'
  | Undefined => Undefined
  end.

Definition lift {S A} (r : result A) : M S A := fun s =>
  match r with
  | Normal a => Returns a s
  | Throw e => Throws e s
  | UB => Undefined
  end.
Definition get {S} : M S S := fun s => Returns s s.
Definition modify {S} (f : S -> S) : M S unit := fun s => Returns tt (f s).

(** ** Characters and [std::string] *)

Definition char_code (c : ascii) : Z := Z.of_N (N_of_ascii c).

(** [isspace] in the "C" locale (the program never calls [setlocale]). *)
Definition isspace (c : ascii) : bool :=
  (char_code c =? 32) || ((9 <=? char_code c) && (char_code c <=? 13)).

Definition digit_value (c : ascii) : option Z :=
  if (48 <=? char_code c) && (char_code c <=? 57) then Some (char_code c - 48) else None.

Definition xdigit_value (c : ascii) : option Z :=
  let n := char_code c in
  if (48 <=? n) && (n <=? 57) then Some (n - 48)
  else if (65 <=? n) && (n <=? 70) then Some (n - 55)
  else if (97 <=? n) && (n <=? 102) then Some (n - 87)
  else None.

Definition tolower (c : ascii) : ascii :=
  let n := char_code c in
  if (65 <=? n) && (n <=? 90) then ascii_of_N (Z.to_N (n + 32)) else c.

(** Letters, digits and the underscore: the characters of a NaN payload. *)
Definition is_nchar (c : ascii) : bool :=
  let n := char_code c in
  ((48 <=? n) && (n <=? 57)) || ((65 <=? n) && (n <=? 90))
  || ((97 <=? n) && (n <=? 122)) || (n =? 95).

(** [size_t] is 64 bits wide; unsigned subtraction wraps. *)
Definition SIZE_WIDTH : Z := 64.
Definition size_t_sub (a b : Z) : Z := (a - b) mod 2 ^ SIZE_WIDTH.
Definition string_size (s : string) : Z := Z.of_nat (String.length s).

(** [s.front()] is [operator[](0)]. On the empty string that is
    [operator[](size())], the terminating null character: the library tests
    [!empty()] only when it is built with its assertions, which this program
    does not ask for. *)
Definition front (s : string) : result ascii :=
  match s with
  | String c _ => Normal c
  | EmptyString => Normal zero
  end.

Fixpoint last_char (c : ascii) (s : string) : ascii :=
  match s with
  | String c' s' => last_char c' s'
  | EmptyString => c
  end.

(** [s.back()] is [operator[](size() - 1)]: on the empty string the index
    wraps around and the read is outside the buffer, which is undefined. *)
Definition back (s : string) : result ascii :=
  match s with
  | String c s' => Normal (last_char c s')
  | EmptyString => UB
  end.

(** [s.substr(pos, n)]: [out_of_range] when [pos > size()], otherwise the
    [min(n, size() - pos)] characters from [pos]. *)
Definition substr (s : string) (pos n : Z) : result string :=
  if string_size s <? pos then Throw (out_of_range "basic_string::substr")
  else Normal (String.substring (Z.to_nat pos) (Z.to_nat (Z.min n (string_size s - pos))) s).

(** ** [strtod], [std::stod], [strtol] and [std::stoi] *)

Fixpoint skip_space (s : string) : string :=
  match s with
  | String c s' => if isspace c then skip_space s' else s
  | EmptyString => s
  end.

(** An optional sign: whether it is a minus, and the rest. *)
Definition scan_sign (s : string) : bool * string :=
  match s with
  | String "+" s' => (false, s')
  | String "-" s' => (true, s')
  | _ => (false, s)
  end.

(** The longest run of digits in the given base at the head of [s], read onto
    the accumulator: the number, how many digits were read, the rest. *)
Fixpoint scan_digits (digit : ascii -> option Z) (base : Z) (s : string) (acc : Z)
    : Z * nat * string :=
  match s with
  | String c s' =>
      match digit c with
      | Some d =>
          let '(v, n, r) := scan_digits digit base s' (acc * base + d) in (v, S n, r)
      | None => (acc, O, s)
      end
  | EmptyString => (acc, O, s)
  end.

(** An exponent part: the marker ([e] or [p], either case), an optional sign
    and at least one decimal digit; nothing is consumed otherwise. *)
Definition scan_exponent (marker : ascii) (s : string) : Z * string :=
  match s with
  | String c r =>
      if Ascii.eqb (tolower c) marker then
        let '(neg, r1) := scan_sign r in
        let '(v, n, r2) := scan_digits digit_value 10 r1 0 in
        match n with
        | O => (0, s)
        | S _ => (if neg then - v else v, r2)
        end
      else (0, s)
  | EmptyString => (0, s)
  end.

(** Digits with an optional radix point, at least one digit in all: the
    digits read as one integer, how many followed the point, the rest. *)
Definition scan_mantissa (digit : ascii -> option Z) (base : Z) (s : string)
    : option (Z * nat * string) :=
  let '(m1, n1, r1) := scan_digits digit base s 0 in
  let '(m2, n2, r2) :=
    match r1 with
    | String "." r => scan_digits digit base r m1
    | _ => (m1, O, r1)
    end in
  match n1, n2 with
  | O, O => None
  | _, _ => Some (m2, n2, r2)
  end.

(** [p] stripped from the head of [s], ignoring case ([p] is lower case). *)
Fixpoint strip_prefix_ci (p s : string) : option string :=
  match p, s with
  | EmptyString, _ => Some s
  | String a p', String c s' =>
      if Ascii.eqb a (tolower c) then strip_prefix_ci p' s' else None
  | String _ _, EmptyString => None
  end.

Fixpoint skip_nchars (s : string) : string :=
  match s with
  | String c s' => if is_nchar c then skip_nchars s' else s
  | EmptyString => s
  end.

(** After [nan]: a payload in parentheses is consumed when it is well formed. *)
Definition scan_nan_payload (s : string) : string :=
  match s with
  | String "(" r =>
      match skip_nchars r with
      | String ")" r' => r'
      | _ => s
      end
  | _ => s
  end.

(** What [strtod] read: a finite magnitude [num / den], an infinity or a NaN. *)
Inductive strtod_value : Type :=
  | Finite (negative : bool) (num den : Z)
  | Infinity (negative : bool)
  | NaN.

(** [m * base ^ e] as a fraction. *)
Definition scale (negative : bool) (m base e : Z) : strtod_value :=
  if 0 <=? e then Finite negative (m * base ^ e) 1
  else Finite negative m (base ^ (- e)).

Definition scan_decimal (negative : bool) (s : string) : option (strtod_value * string) :=
  match scan_mantissa digit_value 10 s with
  | Some (m, k, r) =>
      let '(e, r') := scan_exponent "e" r in
      Some (scale negative m 10 (e - Z.of_nat k), r')
  | None => None
  end.

Definition scan_hexadecimal (negative : bool) (s : string) : option (strtod_value * string) :=
  match strip_prefix_ci "0x" s with
  | Some r0 =>
      match scan_mantissa xdigit_value 16 r0 with
      | Some (m, k, r) =>
          let '(e, r') := scan_exponent "p" r in
          Some (scale negative m 2 (e - 4 * Z.of_nat k), r')
      | None => None
      end
  | None => None
  end.

(** The subject sequence of [strtod] in the "C" locale: white space, a sign,
    then an infinity, a NaN, a hexadecimal or a decimal number; the longest
    such prefix is converted and the rest is left. [None] when nothing can be
    converted. *)
Definition strtod (nptr : string) : option (strtod_value * string) :=
  let '(negative, s) := scan_sign (skip_space nptr) in
  match strip_prefix_ci "inf" s with
  | Some r =>
      Some (Infinity negative,
            match strip_prefix_ci "inity" r with Some r' => r' | None => r end)
  | None =>
      match strip_prefix_ci "nan" s with
      | Some r => Some (NaN, scan_nan_payload r)
      | None =>
          match scan_hexadecimal negative s with
          | Some v => Some v
          | None => scan_decimal negative s
          end
      end
  end.

(** When [strtod] sets [errno] to [ERANGE] for a [double] (binary64, round to
    nearest): on overflow, and (glibc) on a non-zero result that is tiny after
    rounding and inexact. *)
Definition erange (v : strtod_value) : bool :=
  match v with
  | Finite _ n d =>
      let overflow := d * (2 ^ 1024 - 2 ^ 970) <=? n in
      let tiny := n * 2 ^ 1076 <? d * (2 ^ 54 - 1) in
      let exact := (n * 2 ^ 1074) mod d =? 0 in
      overflow || ((0 <? n) && tiny && negb exact)
  | _ => false
  end.

(** [std::stod(str)]: [invalid_argument] when nothing is converted,
    [out_of_range] on [ERANGE]; characters after the number are ignored. *)
Definition stod (str : string) : result strtod_value :=
  match strtod str with
  | None => Throw (invalid_argument "stod")
  | Some (v, _) => if erange v then Throw (out_of_range "stod") else Normal v
  end.

Definition INT_MIN : Z := - 2 ^ 31.
Definition INT_MAX : Z := 2 ^ 31 - 1.

(** [strtol(nptr, &end, 10)]: white space, a sign, decimal digits. *)
Definition strtol (nptr : string) : option (Z * string) :=
  let '(negative, s) := scan_sign (skip_space nptr) in
  let '(v, n, r) := scan_digits digit_value 10 s 0 in
  match n with
  | O => None
  | S _ => Some (if negative then - v else v, r)
  end.

(** [std::stoi(str)]: [invalid_argument] when there is no digit to convert,
    [out_of_range] when the number is not an [int]. *)
Definition stoi (str : string) : result Z :=
  match strtol str with
  | None => Throw (invalid_argument "stoi")
  | Some (v, _) =>
      if (INT_MIN <=? v) && (v <=? INT_MAX) then Normal v
      else Throw (out_of_range "stoi")
  end.

(** ** The data model of [main.cpp] *)

Inductive CommandName : Type :=
  | LABEL | IMAGE | CLEAR | TEXT | GOTO | SET | INPUT | IF | RETURN.

(** The [using] aliases of the source; [Parameter] is a reserved word here. *)
Abbreviation TypeName := string (only parsing).
Abbreviation Value := string (only parsing).
Abbreviation Param := (TypeName * Value)%type (only parsing).
Abbreviation Command := (CommandName * list Param)%type (only parsing).

(** ** [parse_param] *)

(** The double quote, the tab and the line feed. *)
Definition QUOTE : ascii := ascii_of_N 34.
Definition TAB : ascii := ascii_of_N 9.
Definition NEWLINE : ascii := ascii_of_N 10.

Definition parse_param (source : string) : result Param :=
  try_catch
    (_ ← stod source; mret ("NUMBER", source))
    (fun _ =>
       c1 ← front source;
       if Ascii.eqb c1 QUOTE then
         c2 ← back source;
         if Ascii.eqb c2 QUOTE then
           v ← substr source 1 (size_t_sub (string_size source) 2);
           mret ("STRING", v)
         else mret ("SYMBOL", source)
       else mret ("SYMBOL", source)).

(** ** [parse] *)

(** [COMMAND_MAP]: the nine command names. *)
Definition COMMAND_MAP : gmap string CommandName :=
  list_to_map
    [("label", LABEL); ("image", IMAGE); ("clear", CLEAR); ("text", TEXT);
     ("goto", GOTO); ("set", SET); ("input", INPUT); ("if", IF);
     ("return", RETURN)].

(** [boost::split(out, s, boost::is_any_of(sep))] for a single separator, with
    the default [token_compress_off]: every separator ends a piece, so [n]
    separators give [n + 1] pieces, empty ones included. *)
Fixpoint split (sep : ascii) (s : string) : list string :=
  match s with
  | EmptyString => [EmptyString]
  | String c s' =>
      if Ascii.eqb c sep then EmptyString :: split sep s'
      else
        match split sep s' with
        | piece :: pieces => String c piece :: pieces
        | [] => [String c EmptyString]
        end
  end.

(** The standard error stream, one entry per line written. *)
Abbreviation Stderr := (list string) (only parsing).

Definition cerr_line {S} (write : (Stderr -> Stderr) -> S -> S) (msg : string) : M S unit :=
  modify (write (fun log => log ++ [msg])).

(** The loop over [tokens.begin()+1 .. tokens.end()]. *)
Fixpoint parse_parameters (tokens : list string) : result (list Param) :=
  match tokens with
  | [] => mret []
  | token :: rest =>
      param ← parse_param token;
      parameters ← parse_parameters rest;
      mret (param :: parameters)
  end.

(** The body of the loop over the lines, on the commands collected so far. *)
Definition parse_line (line : string) (result : list Command) : M Stderr (list Command) :=
  if String.eqb line "" then mret result
  else
    match split TAB line with
    | [] => lift UB
    | token0 :: rest =>
        match COMMAND_MAP !! token0 with
        | Some name =>
            parameters ← lift (parse_parameters rest);
            mret (result ++ [(name, parameters)])
        | None =>
            _ ← cerr_line id ("Invalid command name: '" +:+ token0 +:+ "'");
            mret result
        end
    end.

Fixpoint parse_lines (lines : list string) (result : list Command) : M Stderr (list Command) :=
  match lines with
  | [] => mret result
  | line :: rest => result' ← parse_line line result; parse_lines rest result'
  end.

Definition parse (source : string) : M Stderr (list Command) :=
  parse_lines (split NEWLINE source) [].

(** ** Engine state *)

(** An [SDL_Texture*]: an opaque address, [0] for [NULL]. *)
Abbreviation SDL_Texture_ptr := Z (only parsing).
Definition NULL : SDL_Texture_ptr := 0.

Record SDL_Rect : Type := { x : Z; y : Z; w : Z; h : Z }.

Record ImageState : Type := { tex : SDL_Texture_ptr; rect : SDL_Rect }.

Record EngineState : Type := {
  textures : gmap string SDL_Texture_ptr;
  draw_images : gmap string ImageState
}.

(** What a command behaviour can reach: the engine state it is handed by
    reference, and the process's standard error stream. *)
Record World : Type := { state : EngineState; cerr : Stderr }.

Definition with_cerr (f : Stderr -> Stderr) (wd : World) : World :=
  {| state := state wd; cerr := f (cerr wd) |}.
Definition with_state (f : EngineState -> EngineState) (wd : World) : World :=
  {| state := f (state wd); cerr := cerr wd |}.
Definition with_textures (f : gmap string SDL_Texture_ptr -> gmap string SDL_Texture_ptr)
    (st : EngineState) : EngineState :=
  {| textures := f (textures st); draw_images := draw_images st |}.
Definition with_draw_images (f : gmap string ImageState -> gmap string ImageState)
    (st : EngineState) : EngineState :=
  {| textures := textures st; draw_images := f (draw_images st) |}.

(** [v[i]] on a [std::vector]: undefined outside the vector. *)
Definition index {A} (v : list A) (i : nat) : result A :=
  match v !! i with
  | Some a => Normal a
  | None => UB
  end.

(** ** Command behaviours *)

(** The target of a [CommandFn]; the renderer is handed over and not used. *)
Abbreviation Behaviour := (list Param -> M World Z) (only parsing).

Definition command_nop : Behaviour := fun params => mret 0.

Definition command_image : Behaviour := fun params =>
  p0 ← lift (index params 0);
  let id := p0.2 in
  p1 ← lift (index params 1);
  let img_path := p1.2 in
  wd ← get;
  match textures (state wd) !! img_path with
  | None =>
      _ ← cerr_line with_cerr ("'image': " +:+ img_path +:+ " is not loaded.");
      mret 1
  | Some tex =>
      p2 ← lift (index params 2);
      rx ← lift (stoi p2.2);
      p3 ← lift (index params 3);
      ry ← lift (stoi p3.2);
      p4 ← lift (index params 4);
      rw ← lift (stoi p4.2);
      p5 ← lift (index params 5);
      rh ← lift (stoi p5.2);
      let imgst := {| tex := tex; rect := {| x := rx; y := ry; w := rw; h := rh |} |} in
      _ ← modify (with_state (with_draw_images <[id := imgst]>));
      mret 0
  end.

(** ** The command table *)

#[global] Instance CommandName_eq_dec : EqDecision CommandName.
Proof. solve_decision. Defined.

Definition CommandName_code (c : CommandName) : nat :=
  match c with
  | LABEL => 0 | IMAGE => 1 | CLEAR => 2 | TEXT => 3 | GOTO => 4
  | SET => 5 | INPUT => 6 | IF => 7 | RETURN => 8
  end%nat.

Definition CommandName_of_code (n : nat) : CommandName :=
  match n with
  | 0 => LABEL | 1 => IMAGE | 2 => CLEAR | 3 => TEXT | 4 => GOTO
  | 5 => SET | 6 => INPUT | 7 => IF | _ => RETURN
  end%nat.

#[global] Instance CommandName_countable : Countable CommandName.
Proof.
  refine (inj_countable' CommandName_code CommandName_of_code _).
  intros c; destruct c; reflexivity.
Defined.

(** A [std::function]: [None] when it is empty. *)
Abbreviation CommandFn := (option Behaviour) (only parsing).

(** [COMMAND_FN_MAP] as its initialiser lists it. *)
Definition COMMAND_FN_MAP_initial : gmap CommandName CommandFn :=
  list_to_map
    [(LABEL, Some command_nop); (IMAGE, Some command_nop); (TEXT, Some command_nop);
     (GOTO, Some command_nop); (SET, Some command_nop); (INPUT, Some command_nop);
     (IF, Some command_nop); (RETURN, Some command_nop)].

(** ** The process: [main]'s variables and the rendering backend *)

(** Calls into SDL, in the order they are made. *)
Inductive SDL_call : Type :=
  | IMG_LoadTexture_call (path : string) (texture : SDL_Texture_ptr)
  | SDL_RenderClear
  | SDL_RenderCopy (texture : SDL_Texture_ptr) (dstrect : SDL_Rect)
  | SDL_RenderPresent
  | SDL_Delay (ms : Z).

Record Process : Type := {
  world : World;
  COMMAND_FN_MAP : gmap CommandName CommandFn;
  command_index : Z;
  sdl_calls : list SDL_call;
  textures_created : Z
}.

Definition with_world (f : World -> World) (p : Process) : Process :=
  {| world := f (world p); COMMAND_FN_MAP := COMMAND_FN_MAP p;
     command_index := command_index p; sdl_calls := sdl_calls p;
     textures_created := textures_created p |}.
Definition with_COMMAND_FN_MAP
    (f : gmap CommandName CommandFn -> gmap CommandName CommandFn) (p : Process) : Process :=
  {| world := world p; COMMAND_FN_MAP := f (COMMAND_FN_MAP p);
     command_index := command_index p; sdl_calls := sdl_calls p;
     textures_created := textures_created p |}.
Definition with_command_index (f : Z -> Z) (p : Process) : Process :=
  {| world := world p; COMMAND_FN_MAP := COMMAND_FN_MAP p;
     command_index := f (command_index p); sdl_calls := sdl_calls p;
     textures_created := textures_created p |}.
Definition with_sdl_calls (f : list SDL_call -> list SDL_call) (p : Process) : Process :=
  {| world := world p; COMMAND_FN_MAP := COMMAND_FN_MAP p;
     command_index := command_index p; sdl_calls := f (sdl_calls p);
     textures_created := textures_created p |}.
Definition with_textures_created (f : Z -> Z) (p : Process) : Process :=
  {| world := world p; COMMAND_FN_MAP := COMMAND_FN_MAP p;
     command_index := command_index p; sdl_calls := sdl_calls p;
     textures_created := f (textures_created p) |}.

(** A computation on a part of the store, run on the whole store. *)
Definition zoom {S T A} (part : S -> T) (update : (T -> T) -> S -> S) (m : M T A) : M S A :=
  fun s =>
    match m (part s) with
    | Returns a t => Returns a (update (fun _ => t) s)
    | Throws e t => Throws e (update (fun _ => t) s)
    | Undefined => Undefined
    end.

Definition sdl (c : SDL_call) : M Process unit :=
  modify (with_sdl_calls (fun calls => calls ++ [c])).

(** [s.c_str()] as a C function reads it: up to the first NUL. *)
Fixpoint c_str (s : string) : string :=
  match s with
  | String c s' => if Ascii.eqb c zero then EmptyString else String c (c_str s')
  | EmptyString => EmptyString
  end.

(** The files the process can open, each with whether SDL_image decodes it. *)
Abbreviation Files := (gmap string bool) (only parsing).

(** [exists_file]: the file can be opened for reading. *)
Definition exists_file (files : Files) (name : string) : bool :=
  bool_decide (is_Some (files !! c_str name)).

(** [IMG_LoadTexture(renderer, file)] on a C string: a new texture, or [NULL]
    when the file does not decode. *)
Definition IMG_LoadTexture (files : Files) (path : string) : M Process SDL_Texture_ptr :=
  p ← get;
  match files !! path with
  | Some true =>
      let texture := textures_created p + 1 in
      _ ← modify (with_textures_created (fun _ => texture));
      _ ← sdl (IMG_LoadTexture_call path texture);
      mret texture
  | _ =>
      _ ← sdl (IMG_LoadTexture_call path NULL);
      mret NULL
  end.

(** ** The preload pass *)

Definition process_cerr (f : Stderr -> Stderr) : Process -> Process :=
  with_world (with_cerr f).

(** The body of the loop that loads the images of the script. *)
Definition preload_command (files : Files) (cmd : Command) : M Process unit :=
  match cmd.1 with
  | IMAGE =>
      let params := cmd.2 in
      if Z.of_nat (length params) <? 2 then
        cerr_line process_cerr "'image' command should have a file path at 2nd argument."
      else
        p2 ← lift (index params 1);
        if negb (String.eqb p2.1 "STRING") then
          cerr_line process_cerr "2nd argument of 'image' command should be a string."
        else
          let image_path := p2.2 in
          if negb (exists_file files image_path) then
            cerr_line process_cerr ("file: " +:+ image_path +:+ " not found.")
          else
            texture ← IMG_LoadTexture files (c_str image_path);
            modify (with_world (with_state (with_textures <[image_path := texture]>)))
  | _ => mret tt
  end.

Fixpoint preload (files : Files) (commands : list Command) : M Process unit :=
  match commands with
  | [] => mret tt
  | cmd :: rest => _ ← preload_command files cmd; preload files rest
  end.

(** ** The frame loop *)

(** [int] converted to [size_t] for the comparison with [commands.size()]. *)
Definition to_size_t (i : Z) : Z := i mod 2 ^ SIZE_WIDTH.

(** [COMMAND_FN_MAP[command_name](renderer, state, params)]: [operator[]]
    inserts an empty function for a missing key, and calling an empty
    [std::function] throws. *)
Definition dispatch (command_name : CommandName) (params : list Param) : M Process Z :=
  p ← get;
  fn ← match COMMAND_FN_MAP p !! command_name with
       | Some fn => mret fn
       | None =>
           _ ← modify (with_COMMAND_FN_MAP <[command_name := None]>);
           mret None
       end;
  match fn with
  | Some behaviour => zoom world with_world (behaviour params)
  | None => lift (Throw bad_function_call)
  end.

(** [command_index += 1] on an [int]: overflow is undefined. *)
Definition increment_command_index : M Process unit :=
  p ← get;
  if command_index p <? INT_MAX then modify (with_command_index (fun i => i + 1))
  else lift UB.

(** [std::map] iterates in ascending key order, keys compared as bytes. *)
Definition key_le {A} (a b : string * A) : Prop := String.leb a.1 b.1 = true.
#[global] Instance key_le_dec {A} (a b : string * A) : Decision (key_le a b).
Proof. unfold key_le; apply _. Defined.

Definition in_key_order {A} (m : gmap string A) : list (string * A) :=
  merge_sort key_le (map_to_list m).

Fixpoint render_images (images : list (string * ImageState)) : M Process unit :=
  match images with
  | [] => mret tt
  | (_, imgst) :: rest =>
      _ ← sdl (SDL_RenderCopy (tex imgst) (rect imgst));
      render_images rest
  end.

(** One iteration of [while (1)] in which no quit event is pending. *)
Definition tick (commands : list Command) : M Process unit :=
  _ ← sdl SDL_RenderClear;
  p ← get;
  _ ← (if to_size_t (command_index p) <? Z.of_nat (length commands) then
         cmd ← lift (index commands (Z.to_nat (to_size_t (command_index p))));
         _ ← dispatch cmd.1 cmd.2;
         increment_command_index
       else mret tt);
  p' ← get;
  _ ← render_images (in_key_order (draw_images (state (world p'))));
  _ ← sdl SDL_RenderPresent;
  sdl (SDL_Delay 13).

Fixpoint ticks (n : nat) (commands : list Command) : M Process unit :=
  match n with
  | O => mret tt
  | S n' => _ ← tick commands; ticks n' commands
  end.

(** [main] up to the frame loop, once the script is read and SDL is up: the
    script is parsed, [command_image] is registered, the images are loaded.
    The listing of the commands on standard output, the creation of the
    window and the release of the textures after a quit event are left out. *)
Definition initial_process : Process :=
  {| world := {| state := {| textures := ∅; draw_images := ∅ |}; cerr := [] |};
     COMMAND_FN_MAP := COMMAND_FN_MAP_initial;
     command_index := 0;
     sdl_calls := [];
     textures_created := 0 |}.

Definition startup (files : Files) (source : string) : M Process (list Command) :=
  commands ← zoom (fun p => cerr (world p)) process_cerr (parse source);
  _ ← modify (with_COMMAND_FN_MAP <[IMAGE := Some command_image]>);
  _ ← preload files commands;
  mret commands.

(** [main] for [n] frames without a quit event. *)
Definition main (files : Files) (source : string) (n : nat) : M Process unit :=
  commands ← startup files source;
  ticks n commands.

(** ** Reference definitions, in the words of the specification *)

Definition quoted (s : string) : string := String QUOTE (s +:+ String QUOTE EmptyString).
Definition nl : string := String NEWLINE EmptyString.
Definition tab : string := String TAB EmptyString.

Definition first_char (T : string) : option ascii :=
  match T with
  | String c _ => Some c
  | EmptyString => None
  end.

Fixpoint final_char (T : string) : option ascii :=
  match T with
  | EmptyString => None
  | String c EmptyString => Some c
  | String _ T' => final_char T'
  end.

Fixpoint drop_last (T : string) : string :=
  match T with
  | EmptyString => EmptyString
  | String _ EmptyString => EmptyString
  | String c T' => String c (drop_last T')
  end.

(** One leading and one trailing character stripped. *)
Definition strip_ends (T : string) : string :=
  drop_last (match T with String _ T' => T' | EmptyString => EmptyString end).

Definition is_quote (c : option ascii) : bool :=
  match c with
  | Some c => Ascii.eqb c QUOTE
  | None => false
  end.

(** The first and the last character are both the quote character. *)
Definition in_quotes (T : string) : bool :=
  is_quote (first_char T) && is_quote (final_char T).

(** The floating-point parse of the full token succeeds: the whole token is
    converted, within range. *)
Definition float_literal (T : string) : bool :=
  match strtod T with
  | Some (v, EmptyString) => negb (erange v)
  | _ => false
  end.

(** The floating-point parse succeeds on a prefix of the token: some leading
    part is converted, within range, whatever follows it. *)
Definition float_prefix (T : string) : bool :=
  match strtod T with
  | Some (v, _) => negb (erange v)
  | None => false
  end.

(** [classify] as section 4.1 of the specification words it. *)
Definition classify_reference (T : string) : Param :=
  if float_literal T then ("NUMBER", T)
  else if in_quotes T then ("STRING", strip_ends T)
  else ("SYMBOL", T).

(** [classify] with the number test of [std::stod]. *)
Definition classify (T : string) : Param :=
  if float_prefix T then ("NUMBER", T)
  else if in_quotes T then ("STRING", strip_ends T)
  else ("SYMBOL", T).

(** The nine command names. *)
Definition command_names : list string :=
  ["label"; "image"; "clear"; "text"; "goto"; "set"; "input"; "if"; "return"].

(** The diagnostic of [parse] for a line whose first token is [token]. *)
Definition invalid_command_name (token : string) : string :=
  "Invalid command name: '" +:+ token +:+ "'".

(** An outcome continued from the commands and the diagnostics that were
    there before it. *)
Definition prepend (cmds : list Command) (log : Stderr)
    (o : outcome Stderr (list Command)) : outcome Stderr (list Command) :=
  match o with
  | Returns cmds' log' => Returns (cmds ++ cmds') (log ++ log')
  | Throws e log' => Throws e (log ++ log')
  | Undefined => Undefined
  end.

(** A line is blank when it is the empty string. *)
Definition nonblank (line : string) : bool := negb (String.eqb line "").

(** A line names a command and gives it non-empty parameter tokens. *)
Definition well_formed_line (line : string) : Prop :=
  exists token rest name,
    split TAB line = token :: rest
    /\ COMMAND_MAP !! token = Some name
    /\ Forall (fun T => T <> "") rest.

(** The command [parse] makes of a line: the kind its first token names, and
    one classified parameter per further token, in order. *)
Definition line_yields (line : string) (cmd : Command) : Prop :=
  exists token rest,
    split TAB line = token :: rest
    /\ COMMAND_MAP !! token = Some cmd.1
    /\ Forall2 (fun T p => parse_param T = Normal p) rest cmd.2.

(** [COMMAND_FN_MAP] once [main] has stored [command_image] under [IMAGE]:
    the table the frame loop starts with. *)
Definition COMMAND_FN_MAP_registered : gmap CommandName CommandFn :=
  <[IMAGE := Some command_image]> COMMAND_FN_MAP_initial.

(** The diagnostic of [command_image] for a path without a texture. *)
Definition not_loaded (img_path : string) : string :=
  "'image': " +:+ img_path +:+ " is not loaded.".

(** The parameters of an IMAGE command give the identifier [id], the source
    path [path] and, read with [std::stoi], the rectangle [r]. *)
Definition image_request (params : list Param) (id path : string) (r : SDL_Rect) : Prop :=
  exists p0 p1 p2 p3 p4 p5 : Param,
    params !! 0%nat = Some p0 /\ params !! 1%nat = Some p1
    /\ params !! 2%nat = Some p2 /\ params !! 3%nat = Some p3
    /\ params !! 4%nat = Some p4 /\ params !! 5%nat = Some p5
    /\ p0.2 = id /\ p1.2 = path
    /\ stoi p2.2 = Normal (x r) /\ stoi p3.2 = Normal (y r)
    /\ stoi p4.2 = Normal (w r) /\ stoi p5.2 = Normal (h r).

Definition converts (param : option Param) : bool :=
  match param with
  | Some p => match stoi p.2 with Normal _ => true | _ => false end
  | None => false
  end.

(** The command's behaviour returns a status, success or failure, when the
    textures are [tx]: the kind has a behaviour in the table, and an IMAGE
    command has a path parameter which either has no texture or comes with
    four further parameters that [std::stoi] converts. *)
Definition returns_status (tx : gmap string SDL_Texture_ptr) (cmd : Command) : bool :=
  match cmd.1 with
  | CLEAR => false
  | IMAGE =>
      match cmd.2 !! 1%nat with
      | Some p1 =>
          match tx !! p1.2 with
          | None => true
          | Some _ =>
              converts (cmd.2 !! 2%nat) && converts (cmd.2 !! 3%nat)
              && converts (cmd.2 !! 4%nat) && converts (cmd.2 !! 5%nat)
          end
      | None => false
      end
  | _ => true
  end.

(** The world after the behaviour registered for the command has run. *)
Definition run_command (wd : World) (cmd : Command) : World :=
  let behaviour := match cmd.1 with IMAGE => command_image | _ => command_nop end in
  match behaviour cmd.2 wd with
  | Returns _ wd' => wd'
  | Throws _ wd' => wd'
  | Undefined => wd
  end.

(** How many frames were presented. *)
Definition frames_presented (calls : list SDL_call) : nat :=
  length (List.filter (fun c => match c with SDL_RenderPresent => true | _ => false end) calls).

(** The files [IMG_LoadTexture] was called on, in order. *)
Definition texture_loads (calls : list SDL_call) : list string :=
  omap (fun c => match c with IMG_LoadTexture_call path _ => Some path | _ => None end) calls.

(** The image path a command refers to for the preload pass: the second
    parameter of an IMAGE command, of type STRING, naming an existing file. *)
Definition image_reference (files : Files) (cmd : Command) : option string :=
  match cmd.1 with
  | IMAGE =>
      match cmd.2 !! 1%nat with
      | Some p2 =>
          if String.eqb p2.1 "STRING" && exists_file files p2.2 then Some p2.2 else None
      | None => None
      end
  | _ => None
  end.

Definition image_references (files : Files) (commands : list Command) : list string :=
  omap (image_reference files) commands.

(** The store an outcome ends with, when it has one. *)
Definition final_store {S A} (o : outcome S A) : option S :=
  match o with
  | Returns _ s => Some s
  | Throws _ s => Some s
  | Undefined => None
  end.

(** Every function in the table is [command_nop] or [command_image]. *)
Definition table_of_behaviours (table : gmap CommandName CommandFn) : Prop :=
  forall name behaviour,
    table !! name = Some (Some behaviour) ->
    behaviour = command_nop \/ behaviour = command_image.

(** The calls that end a frame: the placements drawn in key order, the
    frame presented, the pause. *)
Definition frame_calls (st : EngineState) : list SDL_call :=
  map (fun entry => SDL_RenderCopy (tex entry.2) (rect entry.2))
    (in_key_order (draw_images st))
  ++ [SDL_RenderPresent; SDL_Delay 13].

(** A process at the head of the frame loop: the table as registered, the
    command index at [0]. *)
Definition loop_start (wd : World) : Process :=
  {| world := wd;
     COMMAND_FN_MAP := COMMAND_FN_MAP_registered;
     command_index := 0;
     sdl_calls := [];
     textures_created := 0 |}.

(** ** Example scripts and parameters *)

Definition portrait_params : list Param :=
  [("SYMBOL", "portrait"); ("STRING", "char.png"); ("NUMBER", "10");
   ("NUMBER", "20"); ("NUMBER", "100"); ("NUMBER", "150")].

Definition portrait_moved_params : list Param :=
  [("SYMBOL", "portrait"); ("STRING", "char.png"); ("NUMBER", "30");
   ("NUMBER", "40"); ("NUMBER", "50"); ("NUMBER", "60")].

Definition world_with_char_png : World :=
  {| state := {| textures := {["char.png" := 1]}; draw_images := ∅ |}; cerr := [] |}.

(** Two IMAGE commands that refer to the same file. *)
Definition two_portraits : list Command :=
  [(IMAGE, [("SYMBOL", "left"); ("STRING", "char.png")]);
   (IMAGE, [("SYMBOL", "right"); ("STRING", "char.png")])].

(** The spec's example line, and the same with a rectangle that is no number. *)
Definition portrait_script : string :=
  "image" +:+ tab +:+ "portrait" +:+ tab +:+ quoted "char.png" +:+ tab +:+ "10"
  +:+ tab +:+ "20" +:+ tab +:+ "100" +:+ tab +:+ "150" +:+ nl.

Definition bad_rectangle_script : string :=
  "image" +:+ tab +:+ "portrait" +:+ tab +:+ quoted "char.png" +:+ tab +:+ "abc"
  +:+ tab +:+ "20" +:+ tab +:+ "100" +:+ tab +:+ "150" +:+ nl.

Definition char_png : Files := {["char.png" := true]}.

(** [r] is what is left of [s] after some leading characters. *)
Definition rest_of (r s : string) : Prop := exists consumed, s = consumed +:+ r.

(** ** The rest of [main]: the quit event and the release *)

(** What [SDL_PollEvent] finds at the head of a frame: nothing, or an event
    of some type. *)
Inductive poll : Type :=
  | no_event
  | event (type : Z).

Definition SDL_QUIT : Z := 256.

(** [while (1)] over the polls of successive frames: a quit event breaks the
    loop before anything else is done in that frame, any other poll lets the
    frame run. [true] when the loop was left, [false] when the polls given
    end before a quit. *)
Fixpoint main_loop (polls : list poll) (commands : list Command) : M Process bool :=
  match polls with
  | [] => mret false
  | found :: rest =>
      match found with
      | event type =>
          if type =? SDL_QUIT then mret true
          else _ ← tick commands; main_loop rest commands
      | no_event => _ ← tick commands; main_loop rest commands
      end
  end.

(** The calls [main] makes once the loop is left. *)
Inductive release_call : Type :=
  | SDL_DestroyTexture (texture : SDL_Texture_ptr)
  | SDL_DestroyRenderer
  | SDL_DestroyWindow
  | SDL_Quit.

(** The loop over [state.textures], in key order, then the renderer, the
    window and SDL itself. *)
Definition release (st : EngineState) : list release_call :=
  map (fun entry => SDL_DestroyTexture entry.2) (in_key_order (textures st))
  ++ [SDL_DestroyRenderer; SDL_DestroyWindow; SDL_Quit].

(** [main] from the parsed script to its [return 0]: the value is [None]
    while the loop is still running when the polls given end, and the exit
    status with the release calls once a quit event has ended it. *)
Definition main_until_quit (files : Files) (source : string) (polls : list poll)
    : M Process (option (Z * list release_call)) :=
  commands ← startup files source;
  quit ← main_loop polls commands;
  if (quit : bool) then
    p ← get;
    mret (Some (0, release (state (world p))))
  else mret None.

(** A second well-formed IMAGE command, on another identifier. *)
Definition left_params : list Param :=
  [("SYMBOL", "left"); ("STRING", "char.png"); ("NUMBER", "0");
   ("NUMBER", "0"); ("NUMBER", "64"); ("NUMBER", "64")].

(** ** Notions for further properties *)

(** The pieces put together again, the separator between them. *)
Fixpoint join (sep : ascii) (pieces : list string) : string :=
  match pieces with
  | [] => EmptyString
  | [piece] => piece
  | piece :: rest => piece +:+ String sep (join sep rest)
  end.

(** How often a character occurs in a string. *)
Fixpoint occurrences (c : ascii) (s : string) : nat :=
  match s with
  | EmptyString => O
  | String c' s' => (if Ascii.eqb c' c then 1 else 0) + occurrences c s'
  end.

(** A line starts with a known command name, whatever its parameters. *)
Definition names_command (line : string) : Prop :=
  exists token rest name,
    split TAB line = token :: rest /\ COMMAND_MAP !! token = Some name.



Definition is_image (cmd : Command) : bool :=
  match cmd.1 with
  | IMAGE => true
  | _ => false
  end.

Definition is_quit (found : poll) : bool :=
  match found with
  | event type => type =? SDL_QUIT
  | no_event => false
  end.

(** No texture but [NULL] is stored under two paths, and every texture
    stored was handed out by [IMG_LoadTexture]. *)
Definition textures_distinct (tx : gmap string SDL_Texture_ptr) : Prop :=
  forall path path' texture,
    texture <> NULL -> tx !! path = Some texture -> tx !! path' = Some texture ->
    path = path'.

Definition textures_fresh (p : Process) : Prop :=
  0 <= textures_created p
  /\ (forall path texture,
        textures (state (world p)) !! path = Some texture ->
        0 <= texture <= textures_created p)
  /\ textures_distinct (textures (state (world p))).

#[global] Instance key_le_total {A} : Total (@key_le A).
Proof. intros a b. apply String.leb_total. Qed.

(** The textures a release destroys, in order. *)
Definition destroyed (calls : list release_call) : list SDL_Texture_ptr :=
  omap (fun c => match c with SDL_DestroyTexture texture => Some texture | _ => None end)
    calls.

(** ** The parameter classifier *)

(** Unfolds the plumbing of the two monads. *)
Ltac unfold_monad :=
  unfold mbind, M_bind, result_bind, mret, M_ret, result_ret, lift, cerr_line,
    modify, get in *.

Lemma last_char_final c s : final_char (String c s) = Some (last_char c s).
Proof.
  revert c; induction s as [|c' s IH]; intros c; [reflexivity|].
  change (final_char (String c (String c' s))) with (final_char (String c' s)).
  rewrite IH; reflexivity.
Qed.

Lemma substring_drop_last s :
  String.substring 0 (String.length s - 1) s = drop_last s.
Proof.
  induction s as [|c s IH]; [reflexivity|].
  destruct s as [|c' s]; [reflexivity|].
  replace (String.length (String c (String c' s)) - 1)%nat
    with (S (String.length (String c' s) - 1)) by (cbn [String.length]; lia).
  cbn [String.substring drop_last]. f_equal. exact IH.
Qed.

Lemma substr_strip_ends c s :
  string_size (String c s) < 2 ^ SIZE_WIDTH ->
  substr (String c s) 1 (size_t_sub (string_size (String c s)) 2)
  = Normal (strip_ends (String c s)).
Proof.
  intros Hmax. unfold substr, size_t_sub, string_size, SIZE_WIDTH in *.
  cbn [String.length] in *.
  destruct (Z.ltb_spec (Z.of_nat (S (String.length s))) 1) as [Hlt|_]; [lia|].
  f_equal. unfold strip_ends.
  change (Z.to_nat 1) with 1%nat.
  destruct s as [|c' s].
  - reflexivity.
  - cbn [String.length] in *.
    rewrite Z.mod_small by lia.
    rewrite Z.min_l by lia.
    replace (Z.to_nat (Z.of_nat (S (S (String.length s))) - 2)) with (String.length s) by lia.
    cbn [String.substring].
    rewrite <- substring_drop_last. cbn [String.length].
    replace (S (String.length s) - 1)%nat with (String.length s) by lia.
    reflexivity.
Qed.

(** Once [std::stod] has thrown, the handler of [parse_param] classifies a
    non-empty token by its quotes. *)
Lemma parse_param_handler c s :
  string_size (String c s) < 2 ^ SIZE_WIDTH ->
  (c1 ← front (String c s);
   if Ascii.eqb c1 QUOTE then
     c2 ← back (String c s);
     if Ascii.eqb c2 QUOTE then
       v ← substr (String c s) 1 (size_t_sub (string_size (String c s)) 2);
       mret ("STRING", v)
     else mret ("SYMBOL", String c s)
   else mret ("SYMBOL", String c s))
  = Normal (if in_quotes (String c s) then ("STRING", strip_ends (String c s))
            else ("SYMBOL", String c s)).
Proof.
  intros Hmax. unfold in_quotes. rewrite last_char_final.
  cbn [front back first_char is_quote mbind result_bind].
  destruct (Ascii.eqb c QUOTE); [|reflexivity].
  destruct (Ascii.eqb (last_char c s) QUOTE); [|reflexivity].
  rewrite substr_strip_ends by exact Hmax. reflexivity.
Qed.

(** *** What [strtod] leaves is the end of its argument *)

Lemma rest_of_refl s : rest_of s s.
Proof. exists "". reflexivity. Qed.

Lemma rest_of_String r c s : rest_of r s -> rest_of r (String c s).
Proof. intros [consumed ->]. exists (String c consumed). reflexivity. Qed.

Lemma rest_of_trans r s t : rest_of r s -> rest_of s t -> rest_of r t.
Proof.
  intros [c1 ->] [c2 ->]. exists (c2 +:+ c1).
  induction c2 as [|a c2 IH]; [reflexivity|].
  change (String a (c2 +:+ c1 +:+ r) = String a ((c2 +:+ c1) +:+ r)). f_equal. exact IH.
Qed.

Lemma skip_space_rest s : rest_of (skip_space s) s.
Proof.
  induction s as [|c s IH]; cbn [skip_space]; [apply rest_of_refl|].
  destruct (isspace c); [apply rest_of_String, IH|apply rest_of_refl].
Qed.

Lemma scan_sign_rest s : rest_of (scan_sign s).2 s.
Proof.
  destruct s as [|c s]; [apply rest_of_refl|]. unfold scan_sign.
  destruct c as [[] [] [] [] [] [] [] []];
    first [apply rest_of_refl | apply rest_of_String, rest_of_refl].
Qed.

Lemma scan_digits_rest digit base s acc : rest_of (scan_digits digit base s acc).2 s.
Proof.
  revert acc. induction s as [|c s IH]; intros acc; cbn [scan_digits];
    [apply rest_of_refl|].
  destruct (digit c) as [d|]; [|apply rest_of_refl].
  specialize (IH (acc * base + d)).
  destruct (scan_digits digit base s (acc * base + d)) as [[v n] r].
  apply rest_of_String, IH.
Qed.

Lemma scan_exponent_rest marker s : rest_of (scan_exponent marker s).2 s.
Proof.
  unfold scan_exponent. destruct s as [|c s]; [apply rest_of_refl|].
  destruct (Ascii.eqb (tolower c) marker); [|apply rest_of_refl].
  pose proof (scan_sign_rest s) as Hsign.
  destruct (scan_sign s) as [neg r1].
  pose proof (scan_digits_rest digit_value 10 r1 0) as Hdigits.
  destruct (scan_digits digit_value 10 r1 0) as [[v n] r2].
  destruct n; [apply rest_of_refl|].
  apply rest_of_String. exact (rest_of_trans _ _ _ Hdigits Hsign).
Qed.

Lemma scan_mantissa_rest digit base s m k r :
  scan_mantissa digit base s = Some (m, k, r) -> rest_of r s.
Proof.
  unfold scan_mantissa.
  pose proof (scan_digits_rest digit base s 0) as H1.
  destruct (scan_digits digit base s 0) as [[m1 n1] r1]. cbn [snd] in H1.
  assert (Hpoint : forall m2 n2 r2,
    match r1 with
    | String "." r' => scan_digits digit base r' m1
    | _ => (m1, O, r1)
    end = (m2, n2, r2) -> rest_of r2 r1).
  { intros m2 n2 r2. destruct r1 as [|c r'].
    - intros [= _ _ <-]. apply rest_of_refl.
    - destruct (Ascii.eqb_spec c ".") as [->|Hc].
      + intros H. pose proof (scan_digits_rest digit base r' m1) as H2.
        rewrite H in H2. apply rest_of_String, H2.
      + destruct c as [[] [] [] [] [] [] [] []]; try congruence;
          intros [= _ _ <-]; apply rest_of_refl. }
  destruct (match r1 with String "." r' => scan_digits digit base r' m1 | _ => (m1, O, r1) end)
    as [[m2 n2] r2].
  specialize (Hpoint m2 n2 r2 eq_refl).
  destruct n1, n2; try discriminate; intros [= _ _ <-];
    exact (rest_of_trans _ _ _ Hpoint H1).
Qed.

Lemma strip_prefix_ci_rest p s r : strip_prefix_ci p s = Some r -> rest_of r s.
Proof.
  revert s. induction p as [|a p IH]; intros s; cbn [strip_prefix_ci].
  - intros [= <-]. apply rest_of_refl.
  - destruct s as [|c s]; [discriminate|].
    destruct (Ascii.eqb a (tolower c)); [|discriminate].
    intros H. apply rest_of_String, IH, H.
Qed.

Lemma skip_nchars_rest s : rest_of (skip_nchars s) s.
Proof.
  induction s as [|c s IH]; cbn [skip_nchars]; [apply rest_of_refl|].
  destruct (is_nchar c); [apply rest_of_String, IH|apply rest_of_refl].
Qed.

Lemma scan_nan_payload_rest s : rest_of (scan_nan_payload s) s.
Proof.
  unfold scan_nan_payload. destruct s as [|c r]; [apply rest_of_refl|].
  destruct (Ascii.eqb_spec c "(") as [->|Hc].
  - pose proof (skip_nchars_rest r) as Hskip.
    destruct (skip_nchars r) as [|c' r']; [apply rest_of_refl|].
    destruct (Ascii.eqb_spec c' ")") as [->|Hc'].
    + apply rest_of_String. refine (rest_of_trans _ _ _ _ Hskip).
      apply rest_of_String, rest_of_refl.
    + destruct c' as [[] [] [] [] [] [] [] []]; try congruence; apply rest_of_refl.
  - destruct c as [[] [] [] [] [] [] [] []]; try congruence; apply rest_of_refl.
Qed.

(** [strtod] converts leading characters only: what it leaves is the end of
    its argument. *)
Lemma strtod_rest nptr v r : strtod nptr = Some (v, r) -> rest_of r nptr.
Proof.
  unfold strtod. pose proof (skip_space_rest nptr) as Hspace.
  pose proof (scan_sign_rest (skip_space nptr)) as Hsign.
  destruct (scan_sign (skip_space nptr)) as [negative s]. cbn [snd] in Hsign.
  assert (Hs : rest_of s nptr) by exact (rest_of_trans _ _ _ Hsign Hspace).
  intros H. refine (rest_of_trans _ _ _ _ Hs). clear Hspace Hsign Hs. revert H.
  destruct (strip_prefix_ci "inf" s) as [r1|] eqn:Hinf.
  { pose proof (strip_prefix_ci_rest _ _ _ Hinf) as H1.
    destruct (strip_prefix_ci "inity" r1) as [r2|] eqn:Hinity; intros [= _ <-].
    - exact (rest_of_trans _ _ _ (strip_prefix_ci_rest _ _ _ Hinity) H1).
    - exact H1. }
  destruct (strip_prefix_ci "nan" s) as [r1|] eqn:Hnan.
  { intros [= _ <-].
    exact (rest_of_trans _ _ _ (scan_nan_payload_rest r1) (strip_prefix_ci_rest _ _ _ Hnan)). }
  unfold scan_hexadecimal, scan_decimal.
  destruct (strip_prefix_ci "0x" s) as [r0|] eqn:H0x.
  - destruct (scan_mantissa xdigit_value 16 r0) as [[[m k] r1]|] eqn:Hhex.
    + pose proof (scan_exponent_rest "p" r1) as Hexp.
      destruct (scan_exponent "p" r1) as [e r2]. intros [= _ <-].
      refine (rest_of_trans _ _ _ Hexp _).
      exact (rest_of_trans _ _ _ (scan_mantissa_rest _ _ _ _ _ _ Hhex)
               (strip_prefix_ci_rest _ _ _ H0x)).
    + destruct (scan_mantissa digit_value 10 s) as [[[m k] r1]|] eqn:Hdec; [|discriminate].
      pose proof (scan_exponent_rest "e" r1) as Hexp.
      destruct (scan_exponent "e" r1) as [e r2]. intros [= _ <-].
      exact (rest_of_trans _ _ _ Hexp (scan_mantissa_rest _ _ _ _ _ _ Hdec)).
  - destruct (scan_mantissa digit_value 10 s) as [[[m k] r1]|] eqn:Hdec; [|discriminate].
    pose proof (scan_exponent_rest "e" r1) as Hexp.
    destruct (scan_exponent "e" r1) as [e r2]. intros [= _ <-].
    exact (rest_of_trans _ _ _ Hexp (scan_mantissa_rest _ _ _ _ _ _ Hdec)).
Qed.

(** A token that parses in full also has a prefix that parses. *)
Lemma float_literal_prefix T : float_literal T = true -> float_prefix T = true.
Proof.
  unfold float_literal, float_prefix.
  destruct (strtod T) as [[v [|c r]]|]; [auto|discriminate..].
Qed.

(** A non-empty token is classified: [parse_param] returns what [classify]
    says, the number test being that of [std::stod]. *)
Lemma parse_param_nonempty T :
  T <> "" -> string_size T < 2 ^ SIZE_WIDTH -> parse_param T = Normal (classify T).
Proof.
  intros Hne Hmax. destruct T as [|c s]; [congruence|].
  unfold parse_param, classify, float_prefix, stod.
  destruct (strtod (String c s)) as [[v r]|].
  - destruct (erange v); cbn [negb try_catch mbind result_bind mret result_ret].
    + apply parse_param_handler, Hmax.
    + reflexivity.
  - cbn [try_catch mbind result_bind]. apply parse_param_handler, Hmax.
Qed.

(** Whatever its length, a non-empty token gets a parameter. *)
Lemma parse_param_total T : T <> "" -> exists p, parse_param T = Normal p.
Proof.
  intros Hne. destruct T as [|c s]; [congruence|].
  assert (Hcatch : exists p,
    (c1 ← front (String c s);
     if Ascii.eqb c1 QUOTE then
       c2 ← back (String c s);
       if Ascii.eqb c2 QUOTE then
         v ← substr (String c s) 1 (size_t_sub (string_size (String c s)) 2);
         mret ("STRING", v)
       else mret ("SYMBOL", String c s)
     else mret ("SYMBOL", String c s)) = Normal p).
  { cbn [front back mbind result_bind].
    destruct (Ascii.eqb c QUOTE); [|eexists; reflexivity].
    destruct (Ascii.eqb (last_char c s) QUOTE); [|eexists; reflexivity].
    unfold substr, string_size. cbn [String.length].
    destruct (Z.ltb_spec (Z.of_nat (S (String.length s))) 1) as [Hlt|_]; [lia|].
    eexists; reflexivity. }
  unfold parse_param, stod.
  destruct (strtod (String c s)) as [[v r]|].
  - destruct (erange v); cbn [try_catch mbind result_bind mret result_ret].
    + exact Hcatch.
    + eexists; reflexivity.
  - cbn [try_catch]. exact Hcatch.
Qed.

(** The empty token: [std::stod] throws, and the null character that
    [front()] gives is no quote. *)
Lemma parse_param_empty : parse_param "" = Normal ("SYMBOL", "").
Proof. reflexivity. Qed.

(** Every token gets a parameter. *)
Lemma parse_param_returns T : exists p, parse_param T = Normal p.
Proof.
  destruct T as [|c s].
  - eexists. exact parse_param_empty.
  - apply parse_param_total. discriminate.
Qed.

(** The two number tests differ only when characters follow the number. *)
Lemma classify_reference_agrees T :
  (forall v r, strtod T = Some (v, r) -> r = "") ->
  classify T = classify_reference T.
Proof.
  intros Hfull. unfold classify, classify_reference, float_prefix, float_literal.
  destruct (strtod T) as [[v r]|]; [|reflexivity].
  rewrite (Hfull v r eq_refl). reflexivity.
Qed.

(** The number test of [std::stod], spelt out: [strtod] converts leading
    characters of the token, leaving the rest, and reports no range error. *)
Lemma float_prefix_spec T :
  float_prefix T = true <->
  exists v r, strtod T = Some (v, r) /\ rest_of r T /\ erange v = false.
Proof.
  unfold float_prefix. split.
  - destruct (strtod T) as [[v r]|] eqn:Hscan; [|discriminate].
    intros Hrange. exists v, r. split; [reflexivity|].
    split; [exact (strtod_rest T v r Hscan)|].
    destruct (erange v); [discriminate|reflexivity].
  - intros (v & r & -> & _ & ->). reflexivity.
Qed.

(** The examples of the specification. *)
Example parse_param_examples :
  parse_param "3.14" = Normal ("NUMBER", "3.14")
  /\ parse_param (quoted "hi") = Normal ("STRING", "hi")
  /\ parse_param "foo" = Normal ("SYMBOL", "foo").
Proof. repeat split; vm_compute; reflexivity. Qed.

(** C3. [parse_param] is total and single-valued: every token, the empty one
    included, gets exactly one parameter, no exception leaves it and nothing
    in it is undefined. On the empty token [std::stod] throws, [front()] is the
    null character, which is no quote, [back()] is not read, and the result is
    the SYMBOL parameter with the empty value. *)
Theorem parse_param_total_on_every_token :
  (forall T, exists p,
     parse_param T = Normal p /\ forall p', parse_param T = Normal p' -> p' = p)
  /\ parse_param "" = Normal ("SYMBOL", "")
  /\ parse_param "" = Normal (classify "").
Proof.
  split; [|split; reflexivity].
  intros T. destruct (parse_param_returns T) as [p Hp].
  exists p. split; [exact Hp|]. intros p' Hp'. congruence.
Qed.

(** C4, as stated: a token with characters after a number is not a
    floating-point literal in full, and the reference makes it a SYMBOL, but
    [parse_param] makes it a NUMBER. *)
Lemma parse_param_number_with_trailing_text :
  parse_param "12abc" = Normal ("NUMBER", "12abc")
  /\ classify_reference "12abc" = ("SYMBOL", "12abc").
Proof. split; vm_compute; reflexivity. Qed.

(** C4, amended. For every non-empty token [T] (of a length a [size_t] holds),
    [parse_param T] is: NUMBER with value [T] exactly when [std::stod] converts
    a prefix of [T] within range, whatever follows the number; otherwise STRING
    with one leading and one trailing character stripped when the first and
    the last character are both the quote; otherwise SYMBOL with value [T]. *)
Theorem parse_param_classifies T :
  T <> "" -> string_size T < 2 ^ SIZE_WIDTH -> parse_param T = Normal (classify T).
Proof. exact (parse_param_nonempty T). Qed.

Lemma parse_param_classifies_witness :
  parse_param (quoted "hi") = Normal (classify (quoted "hi")).
Proof.
  apply (parse_param_classifies (quoted "hi")).
  - discriminate.
  - vm_compute; reflexivity.
Defined.


(** ** The script parser *)

Lemma split_cons sep s : exists piece pieces, split sep s = piece :: pieces.
Proof.
  induction s as [|c s [piece [pieces IH]]]; cbn [split].
  - eauto.
  - destruct (Ascii.eqb c sep); [eauto|]. rewrite IH. eauto.
Qed.

Lemma append_empty s : "" +:+ s = s.
Proof. reflexivity. Qed.

Lemma append_String c a b : String c a +:+ b = String c (a +:+ b).
Proof. reflexivity. Qed.

(** Pieces on either side of a separator are split independently. *)
Lemma split_app sep a b :
  split sep (a +:+ String sep b) = split sep a ++ split sep b.
Proof.
  induction a as [|c a IH]; rewrite ?append_empty, ?append_String; cbn [split].
  - rewrite Ascii.eqb_refl. reflexivity.
  - rewrite IH. destruct (Ascii.eqb c sep); [reflexivity|].
    destruct (split_cons sep a) as [piece [pieces ->]]. reflexivity.
Qed.

Lemma COMMAND_MAP_names token :
  COMMAND_MAP !! token = None <-> token ∉ command_names.
Proof.
  unfold COMMAND_MAP, command_names.
  rewrite <- not_elem_of_list_to_map. cbn [fmap list_fmap fst]. reflexivity.
Qed.

Lemma parse_line_blank cmds log : parse_line "" cmds log = Returns cmds log.
Proof. reflexivity. Qed.

Lemma parse_line_invalid line token rest cmds log :
  line <> "" -> split TAB line = token :: rest -> COMMAND_MAP !! token = None ->
  parse_line line cmds log = Returns cmds (log ++ [invalid_command_name token]).
Proof.
  intros Hne Hsplit Hname. unfold parse_line.
  destruct (String.eqb_spec line "") as [->|_]; [congruence|].
  rewrite Hsplit, Hname. reflexivity.
Qed.

Lemma parse_line_command line token rest name cmds log :
  line <> "" -> split TAB line = token :: rest -> COMMAND_MAP !! token = Some name ->
  parse_line line cmds log =
    match parse_parameters rest with
    | Normal parameters => Returns (cmds ++ [(name, parameters)]) log
    | Throw e => Throws e log
    | UB => Undefined
    end.
Proof.
  intros Hne Hsplit Hname. unfold parse_line.
  destruct (String.eqb_spec line "") as [->|_]; [congruence|].
  rewrite Hsplit, Hname. unfold mbind, M_bind, lift.
  destruct (parse_parameters rest); reflexivity.
Qed.

Lemma prepend_prepend cmds log cmds' log' o :
  prepend cmds log (prepend cmds' log' o) = prepend (cmds ++ cmds') (log ++ log') o.
Proof. destruct o; cbn [prepend]; rewrite <- ?app_assoc; reflexivity. Qed.

(** A line is parsed the same whatever was collected before it. *)
Lemma parse_line_frame line cmds log :
  parse_line line cmds log = prepend cmds log (parse_line line [] []).
Proof.
  unfold parse_line. destruct (String.eqb line "").
  - cbn. rewrite !app_nil_r. reflexivity.
  - destruct (split TAB line) as [|token rest]; [reflexivity|].
    destruct (COMMAND_MAP !! token) as [name|].
    + unfold mbind, M_bind, lift. destruct (parse_parameters rest); cbn;
        rewrite ?app_nil_r; reflexivity.
    + unfold_monad. cbn. rewrite app_nil_r. reflexivity.
Qed.

Lemma parse_lines_frame lines cmds log :
  parse_lines lines cmds log = prepend cmds log (parse_lines lines [] []).
Proof.
  revert cmds log. induction lines as [|line lines IH]; intros cmds log.
  - cbn. rewrite !app_nil_r. reflexivity.
  - cbn [parse_lines]. unfold mbind, M_bind.
    rewrite (parse_line_frame line cmds log).
    destruct (parse_line line [] []) as [cmds1 log1|e log1|]; cbn [prepend].
    + rewrite (IH (cmds ++ cmds1)), (IH cmds1). rewrite prepend_prepend. reflexivity.
    + reflexivity.
    + reflexivity.
Qed.

Lemma parse_lines_app lines1 lines2 cmds log cmds1 log1 :
  parse_lines lines1 cmds log = Returns cmds1 log1 ->
  parse_lines (lines1 ++ lines2) cmds log = parse_lines lines2 cmds1 log1.
Proof.
  revert cmds log. induction lines1 as [|line lines1 IH]; intros cmds log.
  - cbn. intros [= -> ->]. reflexivity.
  - cbn [parse_lines app]. unfold mbind, M_bind.
    destruct (parse_line line cmds log) as [cmds' log'|e log'|]; [|discriminate..].
    apply IH.
Qed.

Lemma parse_parameters_nonempty tokens :
  Forall (fun T => T <> "") tokens ->
  exists parameters,
    parse_parameters tokens = Normal parameters
    /\ Forall2 (fun T p => parse_param T = Normal p) tokens parameters.
Proof.
  induction 1 as [|T tokens HT _ [parameters [Hps Hall]]].
  - exists []. split; [reflexivity|constructor].
  - destruct (parse_param_total T HT) as [p Hp].
    exists (p :: parameters). split.
    + cbn [parse_parameters]. unfold_monad. rewrite Hp, Hps. reflexivity.
    + constructor; assumption.
Qed.

(** Every list of tokens gets its parameters, one per token. *)
Lemma parse_parameters_total tokens :
  exists parameters,
    parse_parameters tokens = Normal parameters
    /\ Forall2 (fun T p => parse_param T = Normal p) tokens parameters.
Proof.
  induction tokens as [|T tokens [parameters [Hps Hall]]].
  - exists []. split; [reflexivity|constructor].
  - destruct (parse_param_returns T) as [p Hp].
    exists (p :: parameters). split.
    + cbn [parse_parameters]. unfold_monad. rewrite Hp, Hps. reflexivity.
    + constructor; assumption.
Qed.

Lemma line_yields_parameter_count line cmd :
  line_yields line cmd ->
  length cmd.2 = (length (split TAB line) - 1)%nat.
Proof.
  intros [token [rest [Hsplit [_ Hall]]]].
  rewrite Hsplit, <- (Forall2_length _ _ _ Hall). cbn [length]. lia.
Qed.

Lemma parse_lines_well_formed lines cmds log :
  Forall (fun line => line = "" \/ well_formed_line line) lines ->
  exists cmds',
    parse_lines lines cmds log = Returns (cmds ++ cmds') log
    /\ Forall2 line_yields (List.filter nonblank lines) cmds'.
Proof.
  intros Hlines. revert cmds.
  induction Hlines as [|line lines Hline _ IH]; intros cmds.
  - exists []. rewrite app_nil_r. split; [reflexivity|constructor].
  - cbn [parse_lines List.filter]. unfold mbind at 1, M_bind.
    destruct (String.eqb_spec line "") as [->|Hne].
    + rewrite parse_line_blank. cbn [nonblank String.eqb negb]. apply IH.
    + destruct Hline as [->|[token [rest [name [Hsplit [Hname Hrest]]]]]]; [congruence|].
      destruct (parse_parameters_nonempty rest Hrest) as [parameters [Hps Hall]].
      rewrite (parse_line_command line token rest name cmds log Hne Hsplit Hname), Hps.
      destruct (IH (cmds ++ [(name, parameters)])) as [cmds' [Hparse Hyields]].
      exists ((name, parameters) :: cmds'). split.
      * rewrite Hparse, <- app_assoc. reflexivity.
      * unfold nonblank at 1. destruct (String.eqb_spec line "") as [->|_]; [congruence|].
        cbn [negb]. constructor; [|exact Hyields].
        exists token, rest. auto.
Qed.

(** X1. On a script whose every non-blank line names a command and has no empty
    parameter token, [parse] writes no diagnostic and returns exactly one
    Command per non-blank line, in the order of the lines, each with one
    parameter per token after the first. *)
Theorem parse_one_command_per_line source log :
  Forall (fun line => line = "" \/ well_formed_line line) (split NEWLINE source) ->
  exists cmds,
    parse source log = Returns cmds log
    /\ Forall2 line_yields (List.filter nonblank (split NEWLINE source)) cmds
    /\ length cmds = length (List.filter nonblank (split NEWLINE source))
    /\ Forall2 (fun line cmd => length cmd.2 = (length (split TAB line) - 1)%nat)
         (List.filter nonblank (split NEWLINE source)) cmds.
Proof.
  intros Hlines.
  destruct (parse_lines_well_formed _ [] log Hlines) as [cmds [Hparse Hyields]].
  exists cmds. repeat split.
  - exact Hparse.
  - exact Hyields.
  - symmetry. exact (Forall2_length _ _ _ Hyields).
  - eapply Forall2_impl; [exact Hyields|]. apply line_yields_parameter_count.
Qed.

Lemma parse_lines_named lines cmds log :
  Forall (fun line => line = "" \/ names_command line) lines ->
  exists cmds',
    parse_lines lines cmds log = Returns (cmds ++ cmds') log
    /\ Forall2 line_yields (List.filter nonblank lines) cmds'.
Proof.
  intros Hlines. revert cmds.
  induction Hlines as [|line lines Hline _ IH]; intros cmds.
  - exists []. rewrite app_nil_r. split; [reflexivity|constructor].
  - cbn [parse_lines List.filter]. unfold mbind at 1, M_bind.
    destruct (String.eqb_spec line "") as [->|Hne].
    + rewrite parse_line_blank. cbn [nonblank String.eqb negb]. apply IH.
    + destruct Hline as [->|[token [rest [name [Hsplit Hname]]]]]; [congruence|].
      destruct (parse_parameters_total rest) as [parameters [Hps Hall]].
      rewrite (parse_line_command line token rest name cmds log Hne Hsplit Hname), Hps.
      destruct (IH (cmds ++ [(name, parameters)])) as [cmds' [Hparse Hyields]].
      exists ((name, parameters) :: cmds'). split.
      * rewrite Hparse, <- app_assoc. reflexivity.
      * unfold nonblank at 1. destruct (String.eqb_spec line "") as [->|_]; [congruence|].
        cbn [negb]. constructor; [|exact Hyields].
        exists token, rest. auto.
Qed.

(** C7. On a script whose non-blank lines all start with a known command
    name, whatever their parameter tokens (empty ones included), [parse]
    writes no diagnostic and returns exactly one Command per non-blank line, in
    the order of the lines, each of the kind its first token names and with
    one parameter per token after the first. Blank lines give no Command: the
    script of two line feeds parses to the empty sequence. *)
Theorem parse_known_commands source log :
  Forall (fun line => line = "" \/ names_command line) (split NEWLINE source) ->
  (exists cmds,
     parse source log = Returns cmds log
     /\ Forall2 line_yields (List.filter nonblank (split NEWLINE source)) cmds
     /\ length cmds = length (List.filter nonblank (split NEWLINE source))
     /\ Forall2 (fun line cmd => length cmd.2 = (length (split TAB line) - 1)%nat)
          (List.filter nonblank (split NEWLINE source)) cmds)
  /\ parse (nl +:+ nl) log = Returns [] log.
Proof.
  intros Hlines. split; [|reflexivity].
  destruct (parse_lines_named _ [] log Hlines) as [cmds [Hparse Hyields]].
  exists cmds. repeat split.
  - exact Hparse.
  - exact Hyields.
  - symmetry. exact (Forall2_length _ _ _ Hyields).
  - eapply Forall2_impl; [exact Hyields|]. apply line_yields_parameter_count.
Qed.

Lemma parse_known_commands_witness :
  (exists cmds,
     parse ("image" +:+ tab +:+ nl +:+ nl +:+ "text") [] = Returns cmds []
     /\ Forall2 line_yields
          (List.filter nonblank (split NEWLINE ("image" +:+ tab +:+ nl +:+ nl +:+ "text"))) cmds
     /\ length cmds
        = length (List.filter nonblank
                    (split NEWLINE ("image" +:+ tab +:+ nl +:+ nl +:+ "text")))
     /\ Forall2 (fun line cmd => length cmd.2 = (length (split TAB line) - 1)%nat)
          (List.filter nonblank (split NEWLINE ("image" +:+ tab +:+ nl +:+ nl +:+ "text")))
          cmds)
  /\ parse (nl +:+ nl) [] = Returns [] [].
Proof.
  apply (parse_known_commands ("image" +:+ tab +:+ nl +:+ nl +:+ "text") []).
  change (Forall (fun line => line = "" \/ names_command line)
            ["image" +:+ tab; ""; "text"]).
  repeat apply List.Forall_cons; try apply List.Forall_nil.
  - right. exists "image", [""], IMAGE. split; reflexivity.
  - left; reflexivity.
  - right. exists "text", [], TEXT. split; reflexivity.
Defined.

(** C8. A non-blank line whose first token is not one of the nine command
    names leaves the commands collected so far as they are, writes a
    diagnostic that names the token, and the lines after it are parsed as they
    are on their own. *)
Theorem parse_skips_invalid_line source pre bad post token rest cmds1 log log1 :
  split NEWLINE source = pre ++ bad :: post ->
  bad <> "" ->
  split TAB bad = token :: rest ->
  token ∉ command_names ->
  parse_lines pre [] log = Returns cmds1 log1 ->
  parse_line bad cmds1 log1 = Returns cmds1 (log1 ++ [invalid_command_name token])
  /\ parse source log
     = prepend cmds1 (log1 ++ [invalid_command_name token]) (parse_lines post [] []).
Proof.
  intros Hlines Hne Hsplit Hname Hpre.
  apply COMMAND_MAP_names in Hname.
  pose proof (parse_line_invalid bad token rest cmds1 log1 Hne Hsplit Hname) as Hbad.
  split; [exact Hbad|].
  unfold parse. rewrite Hlines.
  rewrite (parse_lines_app pre (bad :: post) [] log cmds1 log1 Hpre).
  cbn [parse_lines]. unfold mbind at 1, M_bind. rewrite Hbad.
  apply parse_lines_frame.
Qed.

Lemma parse_one_command_per_line_witness :
  exists cmds,
    parse ("text" +:+ nl +:+ nl +:+ "label" +:+ tab +:+ "start" +:+ nl) [] = Returns cmds []
    /\ Forall2 line_yields
         (List.filter nonblank
            (split NEWLINE ("text" +:+ nl +:+ nl +:+ "label" +:+ tab +:+ "start" +:+ nl))) cmds
    /\ length cmds
       = length (List.filter nonblank
                   (split NEWLINE ("text" +:+ nl +:+ nl +:+ "label" +:+ tab +:+ "start" +:+ nl)))
    /\ Forall2 (fun line cmd => length cmd.2 = (length (split TAB line) - 1)%nat)
         (List.filter nonblank
            (split NEWLINE ("text" +:+ nl +:+ nl +:+ "label" +:+ tab +:+ "start" +:+ nl))) cmds.
Proof.
  apply (parse_one_command_per_line
           ("text" +:+ nl +:+ nl +:+ "label" +:+ tab +:+ "start" +:+ nl) []).
  change (Forall (fun line => line = "" \/ well_formed_line line)
            ["text"; ""; "label" +:+ tab +:+ "start"; ""]).
  repeat apply List.Forall_cons; try apply List.Forall_nil.
  - right. exists "text", [], TEXT.
    split; [reflexivity|split; [reflexivity|constructor]].
  - left; reflexivity.
  - right. exists "label", ["start"], LABEL.
    split; [reflexivity|split; [reflexivity|]].
    repeat constructor. discriminate.
  - left; reflexivity.
Defined.

Lemma parse_skips_invalid_line_witness :
  parse_line ("bogus" +:+ tab +:+ "foo") [(TEXT, [])] []
  = Returns [(TEXT, [])] ([] ++ [invalid_command_name "bogus"])
  /\ parse ("text" +:+ nl +:+ "bogus" +:+ tab +:+ "foo" +:+ nl +:+ "label" +:+ tab +:+ "start") []
     = prepend [(TEXT, [])] ([] ++ [invalid_command_name "bogus"])
         (parse_lines ["label" +:+ tab +:+ "start"] [] []).
Proof.
  apply (parse_skips_invalid_line
           ("text" +:+ nl +:+ "bogus" +:+ tab +:+ "foo" +:+ nl +:+ "label" +:+ tab +:+ "start")
           ["text"] ("bogus" +:+ tab +:+ "foo") ["label" +:+ tab +:+ "start"]
           "bogus" ["foo"] [(TEXT, [])] [] []).
  - reflexivity.
  - discriminate.
  - reflexivity.
  - apply (bool_decide_unpack _). vm_compute. exact I.
  - reflexivity.
Defined.


(** ** The image command *)

Lemma command_image_not_loaded (params : list Param) (p0 p1 : Param) (wd : World) :
  params !! 0%nat = Some p0 -> params !! 1%nat = Some p1 ->
  textures (state wd) !! p1.2 = None ->
  command_image params wd
  = Returns 1 (with_cerr (fun log => log ++ [not_loaded p1.2]) wd).
Proof.
  intros H0 H1 Htex. unfold command_image, index. unfold_monad.
  rewrite H0, H1; cbn beta iota. rewrite Htex. reflexivity.
Qed.

Lemma command_image_loaded (params : list Param) id path r t (wd : World) :
  image_request params id path r ->
  textures (state wd) !! path = Some t ->
  command_image params wd
  = Returns 0 (with_state (with_draw_images <[id := {| tex := t; rect := r |}]>) wd).
Proof.
  intros (p0 & p1 & p2 & p3 & p4 & p5 & H0 & H1 & H2 & H3 & H4 & H5
          & <- & <- & Hx & Hy & Hw & Hh) Htex.
  unfold command_image, index. unfold_monad.
  rewrite H0, H1; cbn beta iota. rewrite Htex, H2; cbn beta iota.
  rewrite Hx, H3; cbn beta iota. rewrite Hy, H4; cbn beta iota.
  rewrite Hw, H5; cbn beta iota. rewrite Hh.
  destruct r; reflexivity.
Qed.

(** Whatever [command_image] does, the textures stay as they are. *)
Lemma command_image_textures (params : list Param) (wd wd' : World) :
  final_store (command_image params wd) = Some wd' ->
  textures (state wd') = textures (state wd).
Proof.
  unfold command_image, index. unfold_monad.
  destruct (params !! 0%nat) as [p0|]; [cbn beta iota|discriminate].
  destruct (params !! 1%nat) as [p1|]; [cbn beta iota|discriminate].
  destruct (textures (state wd) !! p1.2) as [t|]; [|intros [= <-]; reflexivity].
  destruct (params !! 2%nat) as [p2|]; [cbn beta iota|discriminate].
  destruct (stoi p2.2) as [vx|e|];
    [cbn beta iota|intros [= <-]; reflexivity|discriminate].
  destruct (params !! 3%nat) as [p3|]; [cbn beta iota|discriminate].
  destruct (stoi p3.2) as [vy|e|];
    [cbn beta iota|intros [= <-]; reflexivity|discriminate].
  destruct (params !! 4%nat) as [p4|]; [cbn beta iota|discriminate].
  destruct (stoi p4.2) as [vw|e|];
    [cbn beta iota|intros [= <-]; reflexivity|discriminate].
  destruct (params !! 5%nat) as [p5|]; [cbn beta iota|discriminate].
  destruct (stoi p5.2) as [vh|e|];
    [cbn beta iota|intros [= <-]; reflexivity|discriminate].
  intros [= <-]. reflexivity.
Qed.

(** C6. An IMAGE command whose path has no texture writes a diagnostic,
    returns 1 and leaves the engine state as it is. One whose path has a
    texture returns 0 and stores the placement under the identifier, replacing
    what was there: after a second command with the same identifier the
    placements are those of the second command alone, so the identifier is
    there once, with the second rectangle. *)
Theorem command_image_places :
  (forall (params : list Param) (p0 p1 : Param) (wd : World),
     params !! 0%nat = Some p0 -> params !! 1%nat = Some p1 ->
     textures (state wd) !! p1.2 = None ->
     exists wd',
       command_image params wd = Returns 1 wd'
       /\ state wd' = state wd
       /\ cerr wd' = cerr wd ++ [not_loaded p1.2])
  /\ (forall params id path r t wd,
        image_request params id path r ->
        textures (state wd) !! path = Some t ->
        exists wd',
          command_image params wd = Returns 0 wd'
          /\ draw_images (state wd') = <[id := {| tex := t; rect := r |}]> (draw_images (state wd))
          /\ textures (state wd') = textures (state wd)
          /\ cerr wd' = cerr wd)
  /\ (forall params1 params2 id path1 path2 r1 r2 t1 t2 wd,
        image_request params1 id path1 r1 ->
        image_request params2 id path2 r2 ->
        textures (state wd) !! path1 = Some t1 ->
        textures (state wd) !! path2 = Some t2 ->
        exists wd1 wd2,
          command_image params1 wd = Returns 0 wd1
          /\ command_image params2 wd1 = Returns 0 wd2
          /\ draw_images (state wd2) !! id = Some {| tex := t2; rect := r2 |}
          /\ draw_images (state wd2)
             = <[id := {| tex := t2; rect := r2 |}]> (draw_images (state wd))
          /\ size (draw_images (state wd2)) = size (draw_images (state wd1))).
Proof.
  split; [|split].
  - intros params p0 p1 wd H0 H1 Htex. eexists. split.
    + exact (command_image_not_loaded params p0 p1 wd H0 H1 Htex).
    + split; reflexivity.
  - intros params id path r t wd Hreq Htex. eexists. split.
    + exact (command_image_loaded params id path r t wd Hreq Htex).
    + repeat split.
  - intros params1 params2 id path1 path2 r1 r2 t1 t2 wd Hreq1 Hreq2 Htex1 Htex2.
    eexists. eexists. split; [|split].
    + exact (command_image_loaded params1 id path1 r1 t1 wd Hreq1 Htex1).
    + apply (command_image_loaded params2 id path2 r2 t2 _ Hreq2). exact Htex2.
    + cbn [with_state with_draw_images state draw_images textures].
      split; [apply lookup_insert_eq|]. split; [apply insert_insert_eq|].
      rewrite insert_insert_eq.
      rewrite !map_size_insert. reflexivity.
Qed.

Lemma portrait_request :
  image_request portrait_params "portrait" "char.png"
    {| x := 10; y := 20; w := 100; h := 150 |}.
Proof.
  exists ("SYMBOL", "portrait"), ("STRING", "char.png"), ("NUMBER", "10"),
    ("NUMBER", "20"), ("NUMBER", "100"), ("NUMBER", "150").
  repeat split; reflexivity.
Qed.

Lemma portrait_moved_request :
  image_request portrait_moved_params "portrait" "char.png"
    {| x := 30; y := 40; w := 50; h := 60 |}.
Proof.
  exists ("SYMBOL", "portrait"), ("STRING", "char.png"), ("NUMBER", "30"),
    ("NUMBER", "40"), ("NUMBER", "50"), ("NUMBER", "60").
  repeat split; reflexivity.
Qed.

Lemma command_image_places_witness :
  (exists wd',
     command_image [("SYMBOL", "portrait"); ("STRING", "gone.png")] world_with_char_png
     = Returns 1 wd'
     /\ state wd' = state world_with_char_png
     /\ cerr wd' = cerr world_with_char_png ++ [not_loaded "gone.png"])
  /\ (exists wd1 wd2,
        command_image portrait_params world_with_char_png = Returns 0 wd1
        /\ command_image portrait_moved_params wd1 = Returns 0 wd2
        /\ draw_images (state wd2) !! "portrait"
           = Some {| tex := 1; rect := {| x := 30; y := 40; w := 50; h := 60 |} |}
        /\ draw_images (state wd2)
           = <["portrait" := {| tex := 1; rect := {| x := 30; y := 40; w := 50; h := 60 |} |}]>
               (draw_images (state world_with_char_png))
        /\ size (draw_images (state wd2)) = size (draw_images (state wd1))).
Proof.
  destruct command_image_places as [Hmissing [_ Htwice]]. split.
  - apply (Hmissing [("SYMBOL", "portrait"); ("STRING", "gone.png")]
             ("SYMBOL", "portrait") ("STRING", "gone.png") world_with_char_png);
      reflexivity.
  - apply (Htwice portrait_params portrait_moved_params "portrait" "char.png" "char.png"
             {| x := 10; y := 20; w := 100; h := 150 |}
             {| x := 30; y := 40; w := 50; h := 60 |} 1 1 world_with_char_png).
    + exact portrait_request.
    + exact portrait_moved_request.
    + reflexivity.
    + reflexivity.
Defined.

(** ** The command table and the dispatch *)

Lemma COMMAND_FN_MAP_registered_lookup name :
  COMMAND_FN_MAP_registered !! name
  = match name with
    | CLEAR => None
    | IMAGE => Some (Some command_image)
    | _ => Some (Some command_nop)
    end.
Proof.
  unfold COMMAND_FN_MAP_registered.
  destruct name;
    first [ apply lookup_insert_eq
          | rewrite lookup_insert_ne by discriminate; reflexivity ].
Qed.

Lemma COMMAND_FN_MAP_registered_behaviours :
  table_of_behaviours COMMAND_FN_MAP_registered.
Proof.
  intros name behaviour. rewrite COMMAND_FN_MAP_registered_lookup.
  destruct name; intros [= <-]; auto.
Qed.

Lemma command_nop_returns (params : list Param) (wd : World) :
  command_nop params wd = Returns 0 wd.
Proof. reflexivity. Qed.

Lemma behaviour_textures behaviour (params : list Param) (wd wd' : World) :
  behaviour = command_nop \/ behaviour = command_image ->
  final_store (behaviour params wd) = Some wd' ->
  textures (state wd') = textures (state wd).
Proof.
  intros [-> | ->].
  - rewrite command_nop_returns. intros [= <-]. reflexivity.
  - apply command_image_textures.
Qed.

(** A dispatch keeps the textures and the command index, and the table
    keeps holding the two behaviours only. *)
Lemma dispatch_frame name (params : list Param) (p p' : Process) :
  table_of_behaviours (COMMAND_FN_MAP p) ->
  final_store (dispatch name params p) = Some p' ->
  textures (state (world p')) = textures (state (world p))
  /\ table_of_behaviours (COMMAND_FN_MAP p')
  /\ command_index p' = command_index p
  /\ sdl_calls p' = sdl_calls p.
Proof.
  intros Htable. unfold dispatch, zoom. unfold_monad.
  destruct (COMMAND_FN_MAP p !! name) as [[behaviour|]|] eqn:Hfn; cbn beta iota.
  - pose proof (behaviour_textures behaviour params (world p)) as Hkeep.
    pose proof (Htable name behaviour Hfn) as Hbehaviour.
    destruct (behaviour params (world p)) as [status wd|e wd|]; cbn [final_store];
      [| |discriminate]; intros [= <-];
      cbn [with_world world COMMAND_FN_MAP command_index sdl_calls];
      (split; [exact (Hkeep wd Hbehaviour eq_refl)|]); auto.
  - intros [= <-]. auto.
  - intros [= <-]. cbn [with_COMMAND_FN_MAP world COMMAND_FN_MAP command_index sdl_calls].
    repeat split. intros name' behaviour'.
    destruct (decide (name = name')) as [<-|Hne].
    + rewrite lookup_insert_eq. discriminate.
    + rewrite lookup_insert_ne by exact Hne. apply Htable.
Qed.

(** The example of the specification: the line is parsed, [char.png] is
    loaded, and the first frame places it under [portrait]. *)
Example portrait_script_places :
  exists p',
    main char_png portrait_script 1 initial_process = Returns tt p'
    /\ draw_images (state (world p')) !! "portrait"
       = Some {| tex := 1; rect := {| x := 10; y := 20; w := 100; h := 150 |} |}
    /\ command_index p' = 1.
Proof. eexists. repeat split; reflexivity. Qed.

(** C1. The table has no entry under [CLEAR], neither as initialised nor once
    [command_image] is registered, while the eight other kinds have a
    behaviour; a script with a [clear] line ends the process in its first
    frame, by the [bad_function_call] of the empty function. *)
Theorem COMMAND_FN_MAP_lacks_CLEAR :
  COMMAND_FN_MAP_initial !! CLEAR = None
  /\ COMMAND_FN_MAP_registered !! CLEAR = None
  /\ Forall (fun name => exists behaviour,
               COMMAND_FN_MAP_registered !! name = Some (Some behaviour))
       [LABEL; IMAGE; TEXT; GOTO; SET; INPUT; IF; RETURN]
  /\ exists p',
       main ∅ ("clear" +:+ nl) 1 initial_process = Throws bad_function_call p'
       /\ command_index p' = 0.
Proof.
  split; [reflexivity|]. split; [apply COMMAND_FN_MAP_registered_lookup|]. split.
  - repeat apply List.Forall_cons; try apply List.Forall_nil;
      rewrite COMMAND_FN_MAP_registered_lookup; eexists; reflexivity.
  - eexists. split; reflexivity.
Qed.

(** C2. An IMAGE command whose rectangle is not a number makes [std::stoi]
    throw out of [command_image]; nothing catches it, so the process ends in
    that frame, without a diagnostic and without advancing. An IMAGE command
    without parameters reads outside its parameter vector. *)
Theorem malformed_image_parameters_are_fatal :
  (exists p',
     main char_png bad_rectangle_script 1 initial_process
     = Throws (invalid_argument "stoi") p'
     /\ command_index p' = 0
     /\ cerr (world p') = [])
  /\ main char_png ("image" +:+ nl) 1 initial_process = Undefined.
Proof.
  split; [|reflexivity].
  eexists. split; [reflexivity|split; reflexivity].
Qed.

(** ** The frame loop *)

Lemma render_images_calls images p :
  render_images images p
  = Returns tt
      (with_sdl_calls
         (fun calls => calls ++ map (fun entry : string * ImageState =>
                                       SDL_RenderCopy (tex entry.2) (rect entry.2)) images) p).
Proof.
  revert p. induction images as [|[key imgst] images IH]; intros p.
  - cbn. unfold_monad. destruct p; unfold with_sdl_calls; cbn.
    rewrite app_nil_r. reflexivity.
  - cbn [render_images]. unfold mbind at 1, M_bind. unfold sdl at 1. unfold_monad.
    rewrite IH. destruct p; unfold with_sdl_calls; cbn.
    rewrite <- app_assoc. reflexivity.
Qed.

(** The end of a frame adds its calls and changes nothing else. *)
Lemma end_of_frame p :
  (p' ← get;
   _ ← render_images (in_key_order (draw_images (state (world p'))));
   _ ← sdl SDL_RenderPresent;
   sdl (SDL_Delay 13)) p
  = Returns tt (with_sdl_calls (fun calls => calls ++ frame_calls (state (world p))) p).
Proof.
  unfold mbind at 1, M_bind, get. unfold mbind at 1, M_bind.
  rewrite render_images_calls. unfold sdl. unfold_monad.
  destruct p; unfold with_sdl_calls, frame_calls; cbn.
  rewrite <- !app_assoc. reflexivity.
Qed.

Lemma frames_presented_app calls1 calls2 :
  frames_presented (calls1 ++ calls2)
  = (frames_presented calls1 + frames_presented calls2)%nat.
Proof. unfold frames_presented. rewrite List.filter_app, length_app. reflexivity. Qed.

Lemma frames_presented_frame st : frames_presented (frame_calls st) = 1%nat.
Proof.
  unfold frame_calls. rewrite frames_presented_app.
  induction (in_key_order (draw_images st)) as [|entry entries IH]; [reflexivity|].
  exact IH.
Qed.

Lemma to_size_t_small i : 0 <= i <= INT_MAX -> to_size_t i = i.
Proof.
  intros Hi. unfold to_size_t, SIZE_WIDTH. apply Z.mod_small.
  unfold INT_MAX in Hi. lia.
Qed.

(** A frame: the clear, one command when the index is inside the script, the
    calls that end the frame. *)
Lemma tick_eq commands p :
  tick commands p
  = match
      (if to_size_t (command_index p) <? Z.of_nat (length commands) then
         cmd ← lift (index commands (Z.to_nat (to_size_t (command_index p))));
         _ ← dispatch cmd.1 cmd.2;
         increment_command_index
       else mret tt) (with_sdl_calls (fun calls => calls ++ [SDL_RenderClear]) p)
    with
    | Returns _ p2 =>
        Returns tt (with_sdl_calls (fun calls => calls ++ frame_calls (state (world p2))) p2)
    | Throws e p2 => Throws e p2
    | Undefined => Undefined
    end.
Proof.
  unfold tick. unfold mbind at 1, M_bind. unfold sdl at 1, modify.
  unfold mbind at 1, M_bind, get. unfold mbind at 1, M_bind.
  cbn [with_sdl_calls command_index].
  match goal with |- context [?m (with_sdl_calls ?f p)] =>
    destruct (m (with_sdl_calls f p)) as [[] p2|e p2|] end; try reflexivity.
  apply end_of_frame.
Qed.

Lemma tick_drained commands p :
  command_index p = Z.of_nat (length commands) ->
  Z.of_nat (length commands) <= INT_MAX ->
  tick commands p
  = Returns tt
      (with_sdl_calls (fun calls => calls ++ frame_calls (state (world p)))
         (with_sdl_calls (fun calls => calls ++ [SDL_RenderClear]) p)).
Proof.
  intros Hindex Hmax. rewrite tick_eq, Hindex.
  rewrite to_size_t_small by lia. rewrite Z.ltb_irrefl. reflexivity.
Qed.

Lemma tick_running commands p (i : nat) cmd :
  command_index p = Z.of_nat i ->
  commands !! i = Some cmd ->
  Z.of_nat (length commands) <= INT_MAX ->
  tick commands p
  = match dispatch cmd.1 cmd.2 (with_sdl_calls (fun calls => calls ++ [SDL_RenderClear]) p) with
    | Returns _ p2 =>
        if command_index p2 <? INT_MAX then
          Returns tt
            (with_sdl_calls (fun calls => calls ++ frame_calls (state (world p2)))
               (with_command_index (fun i => i + 1) p2))
        else Undefined
    | Throws e p2 => Throws e p2
    | Undefined => Undefined
    end.
Proof.
  intros Hindex Hcmd Hmax. rewrite tick_eq, Hindex.
  pose proof (lookup_lt_Some _ _ _ Hcmd) as Hlt.
  rewrite to_size_t_small by lia.
  destruct (Z.ltb_spec (Z.of_nat i) (Z.of_nat (length commands))) as [_|Hge]; [|lia].
  rewrite Nat2Z.id. unfold index. rewrite Hcmd.
  unfold mbind at 1, M_bind, lift. unfold mbind at 1, M_bind.
  destruct (dispatch cmd.1 cmd.2 _) as [status p2|e p2|]; try reflexivity.
  unfold increment_command_index. unfold_monad.
  destruct (command_index p2 <? INT_MAX); reflexivity.
Qed.

(** A frame keeps the textures, and the table keeps its two behaviours. *)
Lemma tick_frame commands p p' :
  table_of_behaviours (COMMAND_FN_MAP p) ->
  final_store (tick commands p) = Some p' ->
  textures (state (world p')) = textures (state (world p))
  /\ table_of_behaviours (COMMAND_FN_MAP p').
Proof.
  intros Htable. rewrite tick_eq.
  destruct (to_size_t (command_index p) <? Z.of_nat (length commands)).
  - unfold mbind at 1, M_bind, lift.
    destruct (index commands _) as [cmd|e|]; [|intros [= <-]; auto|discriminate].
    unfold mbind at 1, M_bind.
    pose proof (dispatch_frame cmd.1 cmd.2
                  (with_sdl_calls (fun calls => calls ++ [SDL_RenderClear]) p)) as Hdispatch.
    destruct (dispatch cmd.1 cmd.2 _) as [status p2|e p2|]; [| |discriminate].
    + destruct (Hdispatch p2 Htable eq_refl) as (Htex & Htable2 & _).
      unfold increment_command_index. unfold_monad.
      destruct (command_index p2 <? INT_MAX); [|discriminate].
      intros [= <-]. auto.
    + destruct (Hdispatch p2 Htable eq_refl) as (Htex & Htable2 & _).
      intros [= <-]. auto.
  - intros [= <-]. auto.
Qed.

Lemma ticks_frame n commands p p' :
  table_of_behaviours (COMMAND_FN_MAP p) ->
  final_store (ticks n commands p) = Some p' ->
  textures (state (world p')) = textures (state (world p))
  /\ table_of_behaviours (COMMAND_FN_MAP p').
Proof.
  revert p. induction n as [|n IH]; intros p Htable.
  - intros [= <-]. auto.
  - cbn [ticks]. unfold mbind, M_bind.
    pose proof (tick_frame commands p) as Htick.
    destruct (tick commands p) as [[] p1|e p1|]; [| |discriminate].
    + destruct (Htick p1 Htable eq_refl) as [Htex Htable1].
      intros Hrest. destruct (IH p1 Htable1 Hrest) as [Htex' Htable'].
      split; [congruence|exact Htable'].
    + intros [= <-]. exact (Htick p1 Htable eq_refl).
Qed.

(** C10. Each behaviour in the table of the frame loop, [command_nop] under
    seven kinds and [command_image] under [IMAGE], leaves the textures as they
    were whenever it returns or throws; so does any number of frames over any
    commands. What a behaviour changes is placements and diagnostics. *)
Theorem commands_keep_textures :
  (forall name behaviour (params : list Param) (wd wd' : World),
     COMMAND_FN_MAP_registered !! name = Some (Some behaviour) ->
     final_store (behaviour params wd) = Some wd' ->
     textures (state wd') = textures (state wd))
  /\ (forall n commands p p',
        COMMAND_FN_MAP p = COMMAND_FN_MAP_registered ->
        final_store (ticks n commands p) = Some p' ->
        textures (state (world p')) = textures (state (world p))).
Proof.
  split.
  - intros name behaviour params wd wd' Hfn.
    apply behaviour_textures.
    exact (COMMAND_FN_MAP_registered_behaviours name behaviour Hfn).
  - intros n commands p p' Htable Hrun.
    apply (ticks_frame n commands p p'); [|exact Hrun].
    rewrite Htable. exact COMMAND_FN_MAP_registered_behaviours.
Qed.

Lemma commands_keep_textures_witness :
  (exists wd',
     final_store (command_image portrait_params world_with_char_png) = Some wd'
     /\ textures (state wd') = textures (state world_with_char_png))
  /\ (exists p',
        final_store (ticks 1 [(TEXT, [])] (loop_start world_with_char_png)) = Some p'
        /\ textures (state (world p'))
           = textures (state (world (loop_start world_with_char_png)))).
Proof.
  destruct commands_keep_textures as [Hbehaviour Hticks]. split.
  - eexists. split; [reflexivity|].
    apply (Hbehaviour IMAGE command_image portrait_params).
    + apply COMMAND_FN_MAP_registered_lookup.
    + reflexivity.
  - eexists. split; [reflexivity|].
    apply (Hticks 1%nat [(TEXT, [])]); reflexivity.
Defined.

Lemma converts_stoi (param : option Param) :
  converts param = true -> exists p v, param = Some p /\ stoi p.2 = Normal v.
Proof.
  destruct param as [p|]; [|discriminate]. cbn [converts].
  destruct (stoi p.2) as [v| |] eqn:Hv; [|discriminate..].
  intros _. exists p, v. split; [reflexivity|exact Hv].
Qed.

(** A command that [returns_status] accepts runs to a status. *)
Lemma behaviour_returns tx (cmd : CommandName * list Param) (wd : World) :
  textures (state wd) = tx ->
  returns_status tx cmd = true ->
  exists (behaviour : Behaviour) status,
    COMMAND_FN_MAP_registered !! cmd.1 = Some (Some behaviour)
    /\ behaviour cmd.2 wd = Returns status (run_command wd cmd).
Proof.
  intros <-. destruct cmd as [name params]. unfold returns_status, run_command.
  rewrite COMMAND_FN_MAP_registered_lookup. cbn [fst snd].
  destruct name; try discriminate;
    try (intros _; exists command_nop, 0; split; reflexivity).
  destruct (params !! 1%nat) as [p1|] eqn:H1; [|discriminate].
  destruct (lookup_lt_is_Some_2 params 0%nat) as [p0 H0];
    [apply lookup_lt_Some in H1; lia|].
  destruct (textures (state wd) !! p1.2) as [t|] eqn:Htex.
  - intros Hconv. apply andb_prop in Hconv as [Hconv Hh].
    apply andb_prop in Hconv as [Hconv Hw]. apply andb_prop in Hconv as [Hx Hy].
    destruct (converts_stoi _ Hx) as (p2 & vx & H2 & Hvx).
    destruct (converts_stoi _ Hy) as (p3 & vy & H3 & Hvy).
    destruct (converts_stoi _ Hw) as (p4 & vw & H4 & Hvw).
    destruct (converts_stoi _ Hh) as (p5 & vh & H5 & Hvh).
    assert (Hreq : image_request params p0.2 p1.2 {| x := vx; y := vy; w := vw; h := vh |}).
    { exists p0, p1, p2, p3, p4, p5. repeat split; assumption. }
    exists command_image, 0. split; [reflexivity|].
    rewrite (command_image_loaded params _ _ _ t wd Hreq Htex). reflexivity.
  - intros _. exists command_image, 1. split; [reflexivity|].
    rewrite (command_image_not_loaded params p0 p1 wd H0 H1 Htex). reflexivity.
Qed.

Lemma run_command_textures (wd : World) (cmd : CommandName * list Param) :
  textures (state (run_command wd cmd)) = textures (state wd).
Proof.
  unfold run_command.
  set (behaviour := match cmd.1 with IMAGE => command_image | _ => command_nop end).
  assert (Hb : behaviour = command_nop \/ behaviour = command_image)
    by (unfold behaviour; destruct cmd.1; auto).
  pose proof (behaviour_textures behaviour cmd.2 wd) as Hkeep.
  destruct (behaviour cmd.2 wd) as [status wd'|e wd'|]; [| |reflexivity];
    exact (Hkeep wd' Hb eq_refl).
Qed.

(** A frame in which the index is inside the script runs the command there
    and moves the index on by one, whatever status the command returns. *)
Lemma tick_step commands p (i : nat) (cmd : CommandName * list Param) :
  COMMAND_FN_MAP p = COMMAND_FN_MAP_registered ->
  command_index p = Z.of_nat i ->
  commands !! i = Some cmd ->
  Z.of_nat (length commands) <= INT_MAX ->
  returns_status (textures (state (world p))) cmd = true ->
  tick commands p
  = Returns tt
      (with_sdl_calls (fun calls => calls ++ frame_calls (state (run_command (world p) cmd)))
         (with_command_index (fun i => i + 1)
            (with_world (fun _ => run_command (world p) cmd)
               (with_sdl_calls (fun calls => calls ++ [SDL_RenderClear]) p)))).
Proof.
  intros Htable Hindex Hcmd Hmax Hreturns.
  rewrite (tick_running commands p i cmd Hindex Hcmd Hmax).
  destruct (behaviour_returns _ cmd (world p) eq_refl Hreturns)
    as (behaviour & status & Hfn & Hrun).
  unfold dispatch, zoom. unfold_monad.
  cbn [with_sdl_calls COMMAND_FN_MAP world]. rewrite Htable, Hfn.
  cbn [with_sdl_calls world]. rewrite Hrun.
  cbn [with_world with_sdl_calls command_index].
  pose proof (lookup_lt_Some _ _ _ Hcmd) as Hlt.
  destruct (Z.ltb_spec (command_index p) INT_MAX) as [_|Hge]; [|lia].
  reflexivity.
Qed.

Lemma ticks_run n : forall commands p (i : nat),
  COMMAND_FN_MAP p = COMMAND_FN_MAP_registered ->
  command_index p = Z.of_nat i ->
  (i <= length commands)%nat ->
  Z.of_nat (length commands) <= INT_MAX ->
  Forall (fun cmd => returns_status (textures (state (world p))) cmd = true) commands ->
  exists p',
    ticks n commands p = Returns tt p'
    /\ COMMAND_FN_MAP p' = COMMAND_FN_MAP_registered
    /\ command_index p' = Z.of_nat (Nat.min (i + n) (length commands))
    /\ world p' = fold_left run_command (take n (drop i commands)) (world p)
    /\ frames_presented (sdl_calls p') = (frames_presented (sdl_calls p) + n)%nat.
Proof.
  induction n as [|n IH]; intros commands p i Htable Hindex Hi Hmax Hall.
  - exists p. cbn [ticks take fold_left]. repeat split; try assumption.
    + rewrite Hindex. f_equal. lia.
    + lia.
  - cbn [ticks]. unfold mbind, M_bind.
    destruct (decide (i < length commands)%nat) as [Hlt|Hge].
    + destruct (lookup_lt_is_Some_2 commands i Hlt) as [cmd Hcmd].
      assert (Hreturns : returns_status (textures (state (world p))) cmd = true).
      { rewrite Forall_forall in Hall. apply Hall. eapply list_elem_of_lookup_2, Hcmd. }
      rewrite (tick_step commands p i cmd Htable Hindex Hcmd Hmax Hreturns).
      match goal with |- context [ticks n commands ?q] => set (p1 := q) end.
      destruct (IH commands p1 (S i))
        as (p' & Hrun & Htable' & Hindex' & Hworld & Hframes).
      { exact Htable. }
      { unfold p1. cbn [with_sdl_calls with_command_index with_world command_index].
        rewrite Hindex. lia. }
      { lia. }
      { exact Hmax. }
      { unfold p1. cbn [with_sdl_calls with_command_index with_world world].
        rewrite run_command_textures. exact Hall. }
      exists p'. split; [exact Hrun|]. split; [exact Htable'|].
      split; [rewrite Hindex'; f_equal; lia|].
      split.
      * rewrite Hworld. unfold p1.
        cbn [with_sdl_calls with_command_index with_world world].
        rewrite (drop_S _ _ _ Hcmd). reflexivity.
      * rewrite Hframes. unfold p1.
        cbn [with_sdl_calls with_command_index with_world sdl_calls].
        rewrite !frames_presented_app, frames_presented_frame. cbn. lia.
    + assert (i = length commands) as -> by lia.
      rewrite (tick_drained commands p Hindex Hmax).
      match goal with |- context [ticks n commands ?q] => set (p1 := q) end.
      destruct (IH commands p1 (length commands))
        as (p' & Hrun & Htable' & Hindex' & Hworld & Hframes).
      { exact Htable. }
      { exact Hindex. }
      { lia. }
      { exact Hmax. }
      { exact Hall. }
      exists p'. split; [exact Hrun|]. split; [exact Htable'|].
      split; [rewrite Hindex'; f_equal; lia|].
      split.
      * rewrite Hworld. unfold p1. cbn [with_sdl_calls world].
        rewrite drop_all. rewrite !take_nil. reflexivity.
      * rewrite Hframes. unfold p1. cbn [with_sdl_calls sdl_calls].
        rewrite !frames_presented_app, frames_presented_frame. cbn. lia.
Qed.

(** X2. With commands that all return a status, from the head of the loop: after
    [n] frames the first [min n N] commands have run, in order and one per
    frame, the index is [min n N] whatever statuses they returned, and [n]
    frames were presented. The index is [N] from frame [N] on, and the frames
    after that run no command and still render. *)
Theorem frame_loop_drains commands p n :
  COMMAND_FN_MAP p = COMMAND_FN_MAP_registered ->
  command_index p = 0 ->
  Z.of_nat (length commands) <= INT_MAX ->
  Forall (fun cmd => returns_status (textures (state (world p))) cmd = true) commands ->
  exists p',
    ticks n commands p = Returns tt p'
    /\ command_index p' = Z.of_nat (Nat.min n (length commands))
    /\ world p' = fold_left run_command (take n commands) (world p)
    /\ frames_presented (sdl_calls p') = (frames_presented (sdl_calls p) + n)%nat.
Proof.
  intros Htable Hindex Hmax Hall.
  destruct (ticks_run n commands p 0%nat Htable Hindex ltac:(lia) Hmax Hall)
    as (p' & Hrun & _ & Hindex' & Hworld & Hframes).
  exists p'. rewrite drop_0 in Hworld. auto.
Qed.

Lemma frame_loop_drains_witness :
  exists p',
    ticks 3 [(IMAGE, [("SYMBOL", "portrait"); ("STRING", "gone.png")]); (TEXT, [])]
      (loop_start world_with_char_png) = Returns tt p'
    /\ command_index p' = Z.of_nat (Nat.min 3 2)
    /\ world p'
       = fold_left run_command
           (take 3 [(IMAGE, [("SYMBOL", "portrait"); ("STRING", "gone.png")]); (TEXT, [])])
           (world (loop_start world_with_char_png))
    /\ frames_presented (sdl_calls p')
       = (frames_presented (sdl_calls (loop_start world_with_char_png)) + 3)%nat.
Proof.
  apply (frame_loop_drains
           [(IMAGE, [("SYMBOL", "portrait"); ("STRING", "gone.png")]); (TEXT, [])]
           (loop_start world_with_char_png) 3).
  - reflexivity.
  - reflexivity.
  - vm_compute. discriminate.
  - repeat apply List.Forall_cons; try apply List.Forall_nil; reflexivity.
Defined.

(** C9. A script of two commands whose first is [clear]: the first frame ends
    the process with [bad_function_call], the index still at [0]; however many
    frames are asked for, the index never gets to [2]. *)
Theorem frame_loop_stops_at_clear :
  forall n, exists p',
    ticks (S n) [(CLEAR, []); (LABEL, [])] (loop_start world_with_char_png)
    = Throws bad_function_call p'
    /\ command_index p' = 0.
Proof.
  intros n. eexists. split; reflexivity.
Qed.

(** ** The preload pass *)

Lemma texture_loads_app calls1 calls2 :
  texture_loads (calls1 ++ calls2) = texture_loads calls1 ++ texture_loads calls2.
Proof. apply omap_app. Qed.

(** One command of the preload pass: a reference is loaded and stored under
    its path, anything else leaves the calls and the textures alone. *)
Lemma preload_command_loads files (cmd : CommandName * list Param) p :
  exists p',
    preload_command files cmd p = Returns tt p'
    /\ texture_loads (sdl_calls p')
       = texture_loads (sdl_calls p)
         ++ match image_reference files cmd with
            | Some path => [c_str path]
            | None => []
            end
    /\ dom (textures (state (world p')))
       = dom (textures (state (world p)))
         ∪ match image_reference files cmd with
           | Some path => {[path]}
           | None => ∅
           end.
Proof.
  destruct cmd as [name params].
  unfold preload_command, image_reference. cbn [fst snd].
  destruct name;
    try (exists p; split; [reflexivity|];
         split; [symmetry; apply app_nil_r|symmetry; apply (right_id_L ∅ (∪))]).
  destruct (Z.ltb_spec (Z.of_nat (length params)) 2) as [Hshort|Hlong].
  - rewrite (lookup_ge_None_2 params 1%nat) by lia.
    eexists. split; [reflexivity|].
    split; [symmetry; apply app_nil_r|symmetry; apply (right_id_L ∅ (∪))].
  - destruct (lookup_lt_is_Some_2 params 1%nat) as [p2 Hp2]; [lia|].
    unfold index. rewrite Hp2. unfold mbind at 1, M_bind, lift.
    destruct (String.eqb p2.1 "STRING"); cbn [negb andb].
    + destruct (exists_file files p2.2); cbn [negb].
      * unfold IMG_LoadTexture, sdl. unfold_monad.
        destruct (files !! c_str p2.2) as [[|]|]; cbn beta iota;
          (eexists; split; [reflexivity|]);
          cbn [with_world with_state with_textures with_sdl_calls with_textures_created
                 world state textures sdl_calls];
          (split; [rewrite texture_loads_app; reflexivity|]);
          rewrite dom_insert_L; apply (comm_L (∪)).
      * eexists. split; [reflexivity|].
        split; [symmetry; apply app_nil_r|symmetry; apply (right_id_L ∅ (∪))].
    + eexists. split; [reflexivity|].
      split; [symmetry; apply app_nil_r|symmetry; apply (right_id_L ∅ (∪))].
Qed.








(** ** What holds of the claims that a defect breaks *)

(** X3. Every non-empty token is classified: [parse_param] returns a
    parameter, and it is a function of the token. *)
Theorem parse_param_returns_on_token T :
  T <> "" -> exists p, parse_param T = Normal p.
Proof. exact (parse_param_total T). Qed.

Lemma parse_param_returns_on_token_witness :
  exists p, parse_param "3.14" = Normal p.
Proof. apply (parse_param_returns_on_token "3.14"). discriminate. Defined.

(** X4. A frame whose command is an IMAGE command with at least two
    parameters and a path without a texture, whatever its other parameters
    are: the diagnostic is written, the engine state stays as it is, the
    frame completes and the index moves on by one. *)
Theorem unloaded_image_frame_advances commands p (i : nat) (params : list Param)
    (p1 : Param) :
  COMMAND_FN_MAP p = COMMAND_FN_MAP_registered ->
  command_index p = Z.of_nat i ->
  commands !! i = Some (IMAGE, params) ->
  Z.of_nat (length commands) <= INT_MAX ->
  params !! 1%nat = Some p1 ->
  textures (state (world p)) !! p1.2 = None ->
  exists p',
    tick commands p = Returns tt p'
    /\ state (world p') = state (world p)
    /\ cerr (world p') = cerr (world p) ++ [not_loaded p1.2]
    /\ command_index p' = Z.of_nat i + 1.
Proof.
  intros Htable Hindex Hcmd Hmax H1 Htex.
  assert (Hreturns : returns_status (textures (state (world p))) (IMAGE, params) = true).
  { unfold returns_status. cbn [fst snd]. rewrite H1, Htex. reflexivity. }
  rewrite (tick_step commands p i (IMAGE, params) Htable Hindex Hcmd Hmax Hreturns).
  destruct (lookup_lt_is_Some_2 params 0%nat) as [p0 H0];
    [apply lookup_lt_Some in H1; lia|].
  eexists. split; [reflexivity|].
  cbn [with_sdl_calls with_command_index with_world world command_index].
  unfold run_command. cbn [fst snd].
  rewrite (command_image_not_loaded params p0 p1 (world p) H0 H1 Htex).
  cbn [with_cerr state cerr]. rewrite Hindex. auto.
Qed.

Lemma unloaded_image_frame_advances_witness :
  exists p',
    tick [(IMAGE, [("SYMBOL", "portrait"); ("STRING", "gone.png"); ("SYMBOL", "abc")])]
      (loop_start world_with_char_png) = Returns tt p'
    /\ state (world p') = state (world (loop_start world_with_char_png))
    /\ cerr (world p')
       = cerr (world (loop_start world_with_char_png)) ++ [not_loaded "gone.png"]
    /\ command_index p' = Z.of_nat 0 + 1.
Proof.
  apply (unloaded_image_frame_advances
           [(IMAGE, [("SYMBOL", "portrait"); ("STRING", "gone.png"); ("SYMBOL", "abc")])]
           (loop_start world_with_char_png) 0
           [("SYMBOL", "portrait"); ("STRING", "gone.png"); ("SYMBOL", "abc")]
           ("STRING", "gone.png")).
  - reflexivity.
  - reflexivity.
  - reflexivity.
  - vm_compute. discriminate.
  - reflexivity.
  - reflexivity.
Defined.

(** ** Further properties: splitting *)

Lemma join_cons sep piece piece' pieces :
  join sep (piece :: piece' :: pieces)
  = piece +:+ String sep (join sep (piece' :: pieces)).
Proof. reflexivity. Qed.

(** X5. Splitting loses nothing and cuts at every separator: the pieces
    joined with the separator are the string again, there is one piece more
    than there are separators, and no piece holds the separator. *)
Theorem join_split sep s :
  join sep (split sep s) = s
  /\ length (split sep s) = S (occurrences sep s)
  /\ Forall (fun piece => occurrences sep piece = O) (split sep s).
Proof.
  induction s as [|c s (IHjoin & IHlen & IHfree)].
  { split; [reflexivity|]. split; [reflexivity|]. repeat constructor. }
  cbn [split occurrences]. destruct (split_cons sep s) as [piece [pieces Hs]].
  rewrite Hs in *. destruct (Ascii.eqb_spec c sep) as [->|Hc].
  - split; [|split].
    + rewrite join_cons, IHjoin. reflexivity.
    + cbn [length] in *. lia.
    + apply List.Forall_cons; [reflexivity|exact IHfree].
  - split; [|split].
    + destruct pieces as [|piece' pieces].
      * cbn [join] in *. congruence.
      * rewrite join_cons in *. rewrite append_String. congruence.
    + cbn [length] in *. lia.
    + inversion IHfree as [|? ? Hpiece Hpieces]; subst.
      apply List.Forall_cons; [|exact Hpieces].
      cbn [occurrences]. destruct (Ascii.eqb_spec c sep); [congruence|exact Hpiece].
Qed.

Lemma split_free sep s : occurrences sep s = O -> split sep s = [s].
Proof.
  induction s as [|c s IH]; [reflexivity|]. cbn [occurrences split].
  destruct (Ascii.eqb c sep); [discriminate|]. intros H. rewrite (IH H). reflexivity.
Qed.

Lemma split_append_free sep piece s :
  occurrences sep piece = O ->
  split sep (piece +:+ String sep s) = piece :: split sep s.
Proof.
  intros Hfree. rewrite split_app, (split_free sep piece Hfree). reflexivity.
Qed.

(** X6. The split is the only cutting into pieces without the separator:
    such pieces, joined, split back into themselves. *)
Theorem split_join sep pieces :
  pieces <> [] ->
  Forall (fun piece => occurrences sep piece = O) pieces ->
  split sep (join sep pieces) = pieces.
Proof.
  intros Hne Hfree.
  induction Hfree as [|piece pieces Hpiece Hfree IH]; [congruence|].
  destruct pieces as [|piece' pieces].
  - exact (split_free sep piece Hpiece).
  - rewrite join_cons.
    rewrite (split_append_free sep piece _ Hpiece), IH by discriminate. reflexivity.
Qed.

Lemma split_join_witness :
  split TAB (join TAB ["image"; ""; "10"]) = ["image"; ""; "10"].
Proof.
  apply (split_join TAB ["image"; ""; "10"]).
  - discriminate.
  - repeat apply List.Forall_cons; try apply List.Forall_nil; reflexivity.
Defined.

(** ** Further properties: the parameter classifier *)

Lemma strtod_quote r : strtod (String QUOTE r) = None.
Proof. reflexivity. Qed.

Lemma final_char_append s c : final_char (s +:+ String c "") = Some c.
Proof.
  induction s as [|a s IH]; [reflexivity|]. rewrite append_String.
  destruct s as [|a' s]; [reflexivity|]. exact IH.
Qed.

Lemma drop_last_append s c : drop_last (s +:+ String c "") = s.
Proof.
  induction s as [|a s IH]; [reflexivity|]. rewrite append_String.
  destruct s as [|a' s]; [reflexivity|].
  rewrite append_String in *. cbn [drop_last]. f_equal. exact IH.
Qed.

(** A string with a last character is its other characters and that one. *)
Lemma final_char_drop_last s c :
  final_char s = Some c -> s = drop_last s +:+ String c "".
Proof.
  induction s as [|a s IH]; [discriminate|].
  destruct s as [|a' s].
  - intros [= ->]. reflexivity.
  - intros H. change (String a (String a' s)
                      = String a (drop_last (String a' s) +:+ String c "")).
    f_equal. apply IH. exact H.
Qed.

(** X7. A string put in quotes comes back as the STRING parameter with that
    string as its value, whatever the string holds. *)
Theorem parse_param_quoted s :
  string_size (quoted s) < 2 ^ SIZE_WIDTH ->
  parse_param (quoted s) = Normal ("STRING", s).
Proof.
  intros Hmax. rewrite (parse_param_nonempty (quoted s)) by (discriminate || exact Hmax).
  unfold classify, float_prefix, quoted. rewrite strtod_quote.
  unfold in_quotes. cbn [first_char].
  rewrite <- append_String, final_char_append. rewrite append_String.
  cbn [is_quote]. rewrite Ascii.eqb_refl. cbn [andb].
  unfold strip_ends. rewrite drop_last_append. reflexivity.
Qed.

Lemma parse_param_quoted_witness :
  parse_param (quoted "12 o'clock") = Normal ("STRING", "12 o'clock").
Proof. apply (parse_param_quoted "12 o'clock"). vm_compute. reflexivity. Defined.

(** X8. What [parse_param] returns tells the token: a NUMBER or a SYMBOL has
    the token as its value, a NUMBER token has a prefix that [std::stod]
    converts, and the token of a STRING is its value in quotes, or is the
    lone quote character when the value is empty. *)
Theorem parse_param_inversion T tag v :
  string_size T < 2 ^ SIZE_WIDTH ->
  parse_param T = Normal (tag, v) ->
  (tag = "NUMBER" /\ v = T /\ float_prefix T = true)
  \/ (tag = "STRING" /\ float_prefix T = false
      /\ (T = quoted v \/ (T = String QUOTE "" /\ v = "")))
  \/ (tag = "SYMBOL" /\ v = T /\ float_prefix T = false /\ in_quotes T = false).
Proof.
  intros Hmax. destruct T as [|c r].
  { rewrite parse_param_empty. intros [= <- <-]. right. right.
    repeat split; reflexivity. }
  rewrite (parse_param_nonempty (String c r)) by (discriminate || exact Hmax).
  unfold classify. destruct (float_prefix (String c r)).
  { intros [= <- <-]. auto. }
  destruct (in_quotes (String c r)) eqn:Hquotes; [|intros [= <- <-]; auto 6].
  intros [= <- <-]. right. left. split; [reflexivity|]. split; [reflexivity|].
  unfold in_quotes in Hquotes. apply andb_prop in Hquotes as [Hfirst Hlast].
  cbn [first_char is_quote] in Hfirst. apply Ascii.eqb_eq in Hfirst. subst c.
  unfold strip_ends. destruct r as [|c' r]; [right; split; reflexivity|].
  left. unfold quoted. f_equal.
  destruct (final_char (String QUOTE (String c' r))) as [c|] eqn:Hfinal; [|discriminate].
  cbn [is_quote] in Hlast. apply Ascii.eqb_eq in Hlast. subst c.
  apply final_char_drop_last. exact Hfinal.
Qed.

Lemma parse_param_inversion_witness :
  ("STRING" = "NUMBER" /\ "hi" = quoted "hi" /\ float_prefix (quoted "hi") = true)
  \/ ("STRING" = "STRING" /\ float_prefix (quoted "hi") = false
      /\ (quoted "hi" = quoted "hi" \/ (quoted "hi" = String QUOTE "" /\ "hi" = "")))
  \/ ("STRING" = "SYMBOL" /\ "hi" = quoted "hi" /\ float_prefix (quoted "hi") = false
      /\ in_quotes (quoted "hi") = false).
Proof.
  apply (parse_param_inversion (quoted "hi") "STRING" "hi").
  - vm_compute. reflexivity.
  - vm_compute. reflexivity.
Defined.

(** ** Further properties: the script parser *)

(** X9. Scripts compose: a script followed, after a line feed, by a second one
    parses to the commands and diagnostics of the first followed by what the
    second gives on its own. *)
Theorem parse_append source1 source2 log cmds1 log1 :
  parse source1 log = Returns cmds1 log1 ->
  parse (source1 +:+ String NEWLINE source2) log
  = prepend cmds1 log1 (parse source2 []).
Proof.
  intros Hfirst. unfold parse in *. rewrite split_app.
  rewrite (parse_lines_app _ _ [] log cmds1 log1 Hfirst).
  apply parse_lines_frame.
Qed.

Lemma parse_append_witness :
  parse ("text" +:+ String NEWLINE ("bogus" +:+ nl +:+ "label")) []
  = prepend [(TEXT, [])] [] (parse ("bogus" +:+ nl +:+ "label") []).
Proof. apply (parse_append "text" ("bogus" +:+ nl +:+ "label") []). reflexivity. Defined.

Lemma parse_line_accounts line cmds log cmds' log' :
  parse_line line cmds log = Returns cmds' log' ->
  (length cmds' + length log'
   = length cmds + length log + (if nonblank line then 1 else 0))%nat.
Proof.
  unfold parse_line, nonblank. destruct (String.eqb line ""); cbn [negb].
  { intros [= <- <-]. lia. }
  destruct (split TAB line) as [|token rest]; [discriminate|].
  destruct (COMMAND_MAP !! token) as [name|].
  - unfold_monad. destruct (parse_parameters rest); [|discriminate..].
    intros [= <- <-]. rewrite length_app. cbn [length]. lia.
  - unfold_monad. intros [= <- <-]. cbn [id]. rewrite length_app. cbn [length]. lia.
Qed.

Lemma parse_lines_accounts lines : forall cmds log cmds' log',
  parse_lines lines cmds log = Returns cmds' log' ->
  (length cmds' + length log'
   = length cmds + length log + length (List.filter nonblank lines))%nat.
Proof.
  induction lines as [|line lines IH]; intros cmds log cmds' log'.
  - intros [= <- <-]. cbn. lia.
  - cbn [parse_lines List.filter]. unfold mbind, M_bind.
    destruct (parse_line line cmds log) as [cmds1 log1|e log1|] eqn:Hline; [|discriminate..].
    intros Hrest. apply IH in Hrest. apply parse_line_accounts in Hline.
    destruct (nonblank line); cbn [length] in *; lia.
Qed.

(** X10. When [parse] returns, every non-blank line is accounted for once: it
    gave a Command or it gave a diagnostic, and blank lines gave neither. *)
Theorem parse_accounts_for_lines source cmds log :
  parse source [] = Returns cmds log ->
  (length cmds + length log = length (List.filter nonblank (split NEWLINE source)))%nat.
Proof.
  intros Hparse. apply parse_lines_accounts in Hparse. cbn [length] in Hparse. lia.
Qed.

Lemma parse_accounts_for_lines_witness :
  (length [(TEXT, @nil (string * string)); (LABEL, [])] + length ["Invalid command name: 'bogus'"]
   = length (List.filter nonblank
               (split NEWLINE ("text" +:+ nl +:+ nl +:+ "bogus" +:+ nl +:+ "label" +:+ nl))))%nat.
Proof.
  apply (parse_accounts_for_lines
           ("text" +:+ nl +:+ nl +:+ "bogus" +:+ nl +:+ "label" +:+ nl)
           [(TEXT, []); (LABEL, [])] ["Invalid command name: 'bogus'"]).
  reflexivity.
Defined.

Lemma parse_line_returns line cmds log :
  exists cmds' log', parse_line line cmds log = Returns (cmds ++ cmds') (log ++ log').
Proof.
  destruct (String.eqb_spec line "") as [->|Hne].
  { exists [], []. rewrite parse_line_blank, !app_nil_r. reflexivity. }
  destruct (split_cons TAB line) as [token [rest Hsplit]].
  destruct (COMMAND_MAP !! token) as [name|] eqn:Hname.
  - rewrite (parse_line_command line token rest name cmds log Hne Hsplit Hname).
    destruct (parse_parameters_total rest) as [parameters [-> _]].
    exists [(name, parameters)], []. rewrite app_nil_r. reflexivity.
  - rewrite (parse_line_invalid line token rest cmds log Hne Hsplit Hname).
    exists [], [invalid_command_name token]. rewrite app_nil_r. reflexivity.
Qed.

Lemma parse_lines_return lines : forall cmds log,
  exists cmds' log', parse_lines lines cmds log = Returns (cmds ++ cmds') (log ++ log').
Proof.
  induction lines as [|line lines IH]; intros cmds log.
  - exists [], []. cbn. rewrite !app_nil_r. reflexivity.
  - cbn [parse_lines]. unfold mbind, M_bind.
    destruct (parse_line_returns line cmds log) as (cmds1 & log1 & ->).
    destruct (IH (cmds ++ cmds1) (log ++ log1)) as (cmds2 & log2 & ->).
    exists (cmds1 ++ cmds2), (log1 ++ log2). rewrite !app_assoc. reflexivity.
Qed.

(** X11. [parse] returns on every script: no exception leaves it and nothing
    in it is undefined, whatever the lines hold (unknown names, empty tokens,
    lone quotes), and what was on the error stream before is still there,
    with the diagnostics of the script after it. *)
Theorem parse_returns_on_every_script source log :
  exists cmds log', parse source log = Returns cmds (log ++ log').
Proof. exact (parse_lines_return (split NEWLINE source) [] log). Qed.

(** ** Further properties: the image command *)

(** The stores [command_image] can end with: the one it started with, that
    one with a diagnostic, or that one with a placement under the identifier. *)
Lemma command_image_final_store (params : list Param) (wd wd' : World) :
  final_store (command_image params wd) = Some wd' ->
  wd' = wd
  \/ (exists msg, wd' = with_cerr (fun log => log ++ [msg]) wd)
  \/ (exists (p0 : Param) imgst,
        params !! 0%nat = Some p0
        /\ wd' = with_state (with_draw_images <[p0.2 := imgst]>) wd).
Proof.
  unfold command_image, index. unfold_monad.
  destruct (params !! 0%nat) as [p0|]; [cbn beta iota|discriminate].
  destruct (params !! 1%nat) as [p1|]; [cbn beta iota|discriminate].
  destruct (textures (state wd) !! p1.2) as [t|]; [|intros [= <-]; eauto].
  destruct (params !! 2%nat) as [p2|]; [cbn beta iota|discriminate].
  destruct (stoi p2.2) as [vx|e|]; [cbn beta iota|intros [= <-]; auto|discriminate].
  destruct (params !! 3%nat) as [p3|]; [cbn beta iota|discriminate].
  destruct (stoi p3.2) as [vy|e|]; [cbn beta iota|intros [= <-]; auto|discriminate].
  destruct (params !! 4%nat) as [p4|]; [cbn beta iota|discriminate].
  destruct (stoi p4.2) as [vw|e|]; [cbn beta iota|intros [= <-]; auto|discriminate].
  destruct (params !! 5%nat) as [p5|]; [cbn beta iota|discriminate].
  destruct (stoi p5.2) as [vh|e|]; [cbn beta iota|intros [= <-]; auto|discriminate].
  intros [= <-]. right. right. eauto.
Qed.

(** X12. Whatever its parameters, an IMAGE command that returns or throws
    has removed no placement and has touched none but the one under its first
    parameter: every other identifier keeps what it had. *)
Theorem command_image_touches_its_identifier (params : list Param) (wd wd' : World) key :
  final_store (command_image params wd) = Some wd' ->
  draw_images (state wd') !! key = draw_images (state wd) !! key
  \/ (exists p0 : Param,
        params !! 0%nat = Some p0 /\ key = p0.2
        /\ is_Some (draw_images (state wd') !! key)).
Proof.
  intros Hfinal.
  destruct (command_image_final_store params wd wd' Hfinal)
    as [->|[[msg ->]|(p0 & imgst & H0 & ->)]]; [auto..|].
  cbn [with_state with_draw_images state draw_images].
  destruct (decide (p0.2 = key)) as [<-|Hne].
  - right. exists p0. rewrite lookup_insert_eq. eauto.
  - left. apply lookup_insert_ne, Hne.
Qed.

Lemma command_image_touches_its_identifier_witness :
  draw_images (state (with_state (with_draw_images
     <["portrait" := {| tex := 1; rect := {| x := 10; y := 20; w := 100; h := 150 |} |}]>)
     world_with_char_png)) !! "other"
  = draw_images (state world_with_char_png) !! "other"
  \/ (exists p0 : Param,
        portrait_params !! 0%nat = Some p0 /\ "other" = p0.2
        /\ is_Some (draw_images (state (with_state (with_draw_images
             <["portrait" := {| tex := 1; rect := {| x := 10; y := 20; w := 100; h := 150 |} |}]>)
             world_with_char_png)) !! "other")).
Proof.
  apply (command_image_touches_its_identifier portrait_params world_with_char_png).
  reflexivity.
Defined.

(** X13. A well-formed IMAGE command is idempotent: run twice in a row it
    leaves what one run leaves. *)
Theorem command_image_idempotent (params : list Param) id path r t (wd : World) :
  image_request params id path r ->
  textures (state wd) !! path = Some t ->
  (_ ← command_image params; command_image params) wd = command_image params wd.
Proof.
  intros Hreq Htex. unfold mbind, M_bind.
  rewrite (command_image_loaded params id path r t wd Hreq Htex).
  rewrite (command_image_loaded params id path r t _ Hreq) by exact Htex.
  f_equal. destruct wd as [[tx placements] log].
  unfold with_state, with_draw_images. cbn. rewrite insert_insert_eq. reflexivity.
Qed.

Lemma command_image_idempotent_witness :
  (_ ← command_image portrait_params; command_image portrait_params) world_with_char_png
  = command_image portrait_params world_with_char_png.
Proof.
  apply (command_image_idempotent portrait_params "portrait" "char.png"
           {| x := 10; y := 20; w := 100; h := 150 |} 1 world_with_char_png).
  - exact portrait_request.
  - reflexivity.
Defined.

(** X14. Well-formed IMAGE commands on different identifiers commute: either
    order leaves the same placements. *)
Theorem command_image_commutes (params1 params2 : list Param) id1 id2 path1 path2 r1 r2 t1 t2
    (wd : World) :
  id1 <> id2 ->
  image_request params1 id1 path1 r1 ->
  image_request params2 id2 path2 r2 ->
  textures (state wd) !! path1 = Some t1 ->
  textures (state wd) !! path2 = Some t2 ->
  (_ ← command_image params1; command_image params2) wd
  = (_ ← command_image params2; command_image params1) wd.
Proof.
  intros Hne Hreq1 Hreq2 Htex1 Htex2. unfold mbind, M_bind.
  rewrite (command_image_loaded params1 id1 path1 r1 t1 wd Hreq1 Htex1).
  rewrite (command_image_loaded params2 id2 path2 r2 t2 wd Hreq2 Htex2).
  rewrite (command_image_loaded params2 id2 path2 r2 t2 _ Hreq2) by exact Htex2.
  rewrite (command_image_loaded params1 id1 path1 r1 t1 _ Hreq1) by exact Htex1.
  f_equal. destruct wd as [[tx placements] log].
  unfold with_state, with_draw_images. cbn.
  rewrite (insert_insert_ne placements id2 id1) by congruence. reflexivity.
Qed.

Lemma left_request :
  image_request left_params "left" "char.png" {| x := 0; y := 0; w := 64; h := 64 |}.
Proof.
  exists ("SYMBOL", "left"), ("STRING", "char.png"), ("NUMBER", "0"),
    ("NUMBER", "0"), ("NUMBER", "64"), ("NUMBER", "64").
  repeat split; reflexivity.
Qed.

Lemma command_image_commutes_witness :
  (_ ← command_image portrait_params; command_image left_params) world_with_char_png
  = (_ ← command_image left_params; command_image portrait_params) world_with_char_png.
Proof.
  apply (command_image_commutes portrait_params left_params "portrait" "left"
           "char.png" "char.png"
           {| x := 10; y := 20; w := 100; h := 150 |} {| x := 0; y := 0; w := 64; h := 64 |}
           1 1 world_with_char_png).
  - discriminate.
  - exact portrait_request.
  - exact left_request.
  - reflexivity.
  - reflexivity.
Defined.

(** ** Further properties: the preload pass *)

Lemma preload_command_frame files (cmd : CommandName * list Param) p :
  exists p',
    preload_command files cmd p = Returns tt p'
    /\ draw_images (state (world p')) = draw_images (state (world p))
    /\ COMMAND_FN_MAP p' = COMMAND_FN_MAP p
    /\ command_index p' = command_index p
    /\ (length (cerr (world p'))
        + match image_reference files cmd with Some _ => 1 | None => 0 end
        = length (cerr (world p)) + (if is_image cmd then 1 else 0))%nat.
Proof.
  destruct cmd as [name params].
  unfold preload_command, image_reference, is_image. cbn [fst snd].
  destruct name; try (exists p; repeat split; reflexivity).
  destruct (Z.ltb_spec (Z.of_nat (length params)) 2) as [Hshort|Hlong].
  - rewrite (lookup_ge_None_2 params 1%nat) by lia.
    eexists. split; [reflexivity|]. unfold process_cerr, with_world, with_cerr. cbn.
    rewrite length_app. cbn. repeat split; lia.
  - destruct (lookup_lt_is_Some_2 params 1%nat) as [p2 Hp2]; [lia|].
    unfold index. rewrite Hp2. unfold mbind at 1, M_bind, lift.
    destruct (String.eqb p2.1 "STRING"); cbn [negb andb].
    + destruct (exists_file files p2.2); cbn [negb].
      * unfold IMG_LoadTexture, sdl. unfold_monad.
        destruct (files !! c_str p2.2) as [[|]|]; cbn beta iota;
          (eexists; split; [reflexivity|]); cbn; repeat split; lia.
      * eexists. split; [reflexivity|]. unfold process_cerr, with_world, with_cerr. cbn.
        rewrite length_app. cbn. repeat split; lia.
    + eexists. split; [reflexivity|]. unfold process_cerr, with_world, with_cerr. cbn.
      rewrite length_app. cbn. repeat split; lia.
Qed.

Lemma preload_frame files commands p :
  exists p',
    preload files commands p = Returns tt p'
    /\ draw_images (state (world p')) = draw_images (state (world p))
    /\ COMMAND_FN_MAP p' = COMMAND_FN_MAP p
    /\ command_index p' = command_index p
    /\ (length (cerr (world p')) + length (image_references files commands)
        = length (cerr (world p)) + length (List.filter is_image commands))%nat.
Proof.
  revert p. induction commands as [|cmd commands IH]; intros p.
  - exists p. repeat split; cbn; lia.
  - cbn [preload]. unfold mbind, M_bind.
    destruct (preload_command_frame files cmd p) as (p1 & -> & Hdraw1 & Htable1 & Hindex1 & Hlog1).
    destruct (IH p1) as (p' & -> & Hdraw & Htable & Hindex & Hlog).
    exists p'. split; [reflexivity|].
    split; [congruence|]. split; [congruence|]. split; [congruence|].
    unfold image_references in *. cbn [omap list_omap List.filter].
    destruct (image_reference files cmd), (is_image cmd); cbn [length] in *; lia.
Qed.

(** X15. The preload pass touches neither the placements, nor the command
    table, nor the command index, and it accounts for every IMAGE command:
    each one is loaded or gets one diagnostic, and no other command gets any. *)
Theorem preload_accounts_for_images files commands p :
  exists p',
    preload files commands p = Returns tt p'
    /\ draw_images (state (world p')) = draw_images (state (world p))
    /\ COMMAND_FN_MAP p' = COMMAND_FN_MAP p
    /\ command_index p' = command_index p
    /\ (length (cerr (world p')) + length (image_references files commands)
        = length (cerr (world p)) + length (List.filter is_image commands))%nat.
Proof. exact (preload_frame files commands p). Qed.

Lemma textures_fresh_initial : textures_fresh initial_process.
Proof.
  split; [reflexivity|]. split.
  - intros path texture H. cbn in H. rewrite lookup_empty in H. discriminate.
  - intros path path' texture _ H. cbn in H. rewrite lookup_empty in H. discriminate.
Qed.

(** Storing a texture newer than all those created so far, or [NULL], keeps
    the stored textures distinct. *)
Lemma textures_fresh_insert p path texture created :
  textures_fresh p ->
  (texture = NULL /\ created = textures_created p)
  \/ (texture = textures_created p + 1 /\ created = textures_created p + 1) ->
  textures_fresh
    (with_world (with_state (with_textures <[path := texture]>))
       (with_textures_created (fun _ => created) p)).
Proof.
  intros (Hcount & Hbound & Hdistinct) Hnew. unfold textures_fresh, NULL in *.
  destruct Hnew as [[-> ->]|[-> ->]];
  cbn [with_world with_state with_textures with_textures_created
         world state textures textures_created].
  all: (split; [lia|]; split;
   [ intros key t; rewrite lookup_insert; destruct (decide (path = key)) as [_|_];
     [ intros [= <-]; lia | intros H; apply Hbound in H; lia ]
   | intros key key' t Ht; pose proof Ht as Ht'; unfold NULL in Ht';
     rewrite !lookup_insert;
     destruct (decide (path = key)) as [<-|Hkey], (decide (path = key')) as [<-|Hkey'];
     [ reflexivity
     | intros [= <-] H; apply Hbound in H; lia
     | intros H [= <-]; apply Hbound in H; lia
     | apply Hdistinct, Ht ] ]).
Qed.

Lemma textures_fresh_cerr p f : textures_fresh p -> textures_fresh (process_cerr f p).
Proof. intros H. exact H. Qed.

Lemma preload_command_fresh files (cmd : CommandName * list Param) p p' :
  textures_fresh p ->
  preload_command files cmd p = Returns tt p' ->
  textures_fresh p'.
Proof.
  intros Hfresh. destruct cmd as [name params]. unfold preload_command. cbn [fst snd].
  destruct name; try (intros [= <-]; exact Hfresh).
  destruct (Z.of_nat (length params) <? 2).
  { unfold_monad. intros [= <-]. exact Hfresh. }
  unfold index. destruct (params !! 1%nat) as [p2|]; [|discriminate].
  unfold mbind at 1, M_bind, lift.
  destruct (String.eqb p2.1 "STRING"); cbn [negb];
    [|unfold_monad; intros [= <-]; exact Hfresh].
  destruct (exists_file files p2.2); cbn [negb];
    [|unfold_monad; intros [= <-]; exact Hfresh].
  unfold IMG_LoadTexture, sdl. unfold_monad.
  destruct (files !! c_str p2.2) as [[|]|]; cbn beta iota; intros [= <-].
  - apply (textures_fresh_insert (with_sdl_calls _ p) p2.2 _ _ Hfresh). right. auto.
  - destruct p as [wd table idx calls made].
    apply (textures_fresh_insert
             {| world := wd; COMMAND_FN_MAP := table; command_index := idx;
                sdl_calls := calls ++ [IMG_LoadTexture_call (c_str p2.2) NULL];
                textures_created := made |} p2.2 NULL made Hfresh).
    left. auto.
  - destruct p as [wd table idx calls made].
    apply (textures_fresh_insert
             {| world := wd; COMMAND_FN_MAP := table; command_index := idx;
                sdl_calls := calls ++ [IMG_LoadTexture_call (c_str p2.2) NULL];
                textures_created := made |} p2.2 NULL made Hfresh).
    left. auto.
Qed.

Lemma preload_fresh files commands p :
  textures_fresh p ->
  exists p', preload files commands p = Returns tt p' /\ textures_fresh p'.
Proof.
  revert p. induction commands as [|cmd commands IH]; intros p Hfresh.
  - exists p. split; [reflexivity|exact Hfresh].
  - cbn [preload]. unfold mbind, M_bind.
    destruct (preload_command_loads files cmd p) as (p1 & Hcmd & _).
    rewrite Hcmd. apply IH. exact (preload_command_fresh files cmd p p1 Hfresh Hcmd).
Qed.

(** X16. The preload pass never stores one texture under two paths: when the
    textures held before it are pairwise distinct and came from
    [IMG_LoadTexture], as at start-up, so are the textures held after it,
    [NULL] for files that do not decode apart. *)
Theorem preload_keeps_textures_distinct files commands p :
  textures_fresh p ->
  exists p', preload files commands p = Returns tt p' /\ textures_fresh p'.
Proof. exact (preload_fresh files commands p). Qed.

Lemma preload_keeps_textures_distinct_witness :
  exists p', preload char_png two_portraits initial_process = Returns tt p' /\ textures_fresh p'.
Proof.
  apply (preload_keeps_textures_distinct char_png two_portraits initial_process).
  exact textures_fresh_initial.
Defined.

(** ** Further properties: the frames *)

Lemma in_key_order_spec {A} (m : gmap string A) :
  in_key_order m ≡ₚ map_to_list m
  /\ Sorted key_le (in_key_order m)
  /\ length (in_key_order m) = size m.
Proof.
  unfold in_key_order. split; [apply merge_sort_Permutation|].
  split; [apply Sorted_merge_sort, _|].
  rewrite (Permutation_length (merge_sort_Permutation key_le (map_to_list m))).
  apply length_map_to_list.
Qed.

(** A dispatch makes no call into SDL, whatever the table holds. *)
Lemma dispatch_calls name (params : list Param) (p p' : Process) :
  final_store (dispatch name params p) = Some p' ->
  sdl_calls p' = sdl_calls p.
Proof.
  unfold dispatch, zoom. unfold_monad.
  destruct (COMMAND_FN_MAP p !! name) as [[behaviour|]|]; cbn beta iota.
  - destruct (behaviour params (world p)) as [status wd|e wd|]; [| |discriminate];
      intros [= <-]; reflexivity.
  - intros [= <-]. reflexivity.
  - intros [= <-]. reflexivity.
Qed.

(** X17. A frame that completes adds to the calls into SDL, in this order:
    one clear, one copy for each placement held at the end of the frame, in
    ascending order of the identifiers, one present and a pause of 13 ms. *)
Theorem tick_calls commands p p' :
  tick commands p = Returns tt p' ->
  exists placements,
    sdl_calls p'
    = sdl_calls p ++ [SDL_RenderClear]
      ++ map (fun entry : string * ImageState =>
                SDL_RenderCopy (tex entry.2) (rect entry.2)) placements
      ++ [SDL_RenderPresent; SDL_Delay 13]
    /\ placements ≡ₚ map_to_list (draw_images (state (world p')))
    /\ Sorted key_le placements.
Proof.
  rewrite tick_eq. intros Htick.
  assert (Hinner : exists p2,
    p' = with_sdl_calls (fun calls => calls ++ frame_calls (state (world p2))) p2
    /\ sdl_calls p2 = sdl_calls p ++ [SDL_RenderClear]).
  { destruct (to_size_t (command_index p) <? Z.of_nat (length commands)).
    - revert Htick. unfold mbind at 1, M_bind, lift.
      destruct (index commands _) as [cmd|e|]; [|discriminate..].
      unfold mbind at 1, M_bind.
      pose proof (dispatch_calls cmd.1 cmd.2
                    (with_sdl_calls (fun calls => calls ++ [SDL_RenderClear]) p)) as Hcalls.
      destruct (dispatch cmd.1 cmd.2 _) as [status pd|e pd|]; [|discriminate..].
      specialize (Hcalls pd eq_refl).
      unfold increment_command_index. unfold_monad.
      destruct (command_index pd <? INT_MAX); [|discriminate].
      intros [= <-]. exists (with_command_index (fun i => i + 1) pd).
      split; [reflexivity|]. exact Hcalls.
    - revert Htick. unfold_monad. intros [= <-].
      exists (with_sdl_calls (fun calls => calls ++ [SDL_RenderClear]) p).
      split; reflexivity. }
  destruct Hinner as (p2 & -> & Hcalls).
  exists (in_key_order (draw_images (state (world p2)))).
  cbn [with_sdl_calls sdl_calls world]. rewrite Hcalls. unfold frame_calls.
  split; [rewrite <- !app_assoc; reflexivity|].
  destruct (in_key_order_spec (draw_images (state (world p2)))) as (Hperm & Hsorted & _).
  split; assumption.
Qed.

Lemma tick_calls_witness :
  exists p' placements,
    sdl_calls p'
    = sdl_calls (loop_start world_with_char_png) ++ [SDL_RenderClear]
      ++ map (fun entry : string * ImageState =>
                SDL_RenderCopy (tex entry.2) (rect entry.2)) placements
      ++ [SDL_RenderPresent; SDL_Delay 13]
    /\ placements ≡ₚ map_to_list (draw_images (state (world p')))
    /\ Sorted key_le placements.
Proof.
  eexists. apply (tick_calls [(TEXT, [])] (loop_start world_with_char_png)).
  reflexivity.
Defined.

(** X18. The seven kinds [command_nop] stands for do nothing: a frame on such
    a command leaves the engine state and the error stream as they are,
    whatever the parameters, and moves the index on by one. *)
Theorem placeholder_frame commands p (i : nat) name (params : list Param) :
  COMMAND_FN_MAP p = COMMAND_FN_MAP_registered ->
  command_index p = Z.of_nat i ->
  commands !! i = Some (name, params) ->
  Z.of_nat (length commands) <= INT_MAX ->
  name <> IMAGE -> name <> CLEAR ->
  exists p',
    tick commands p = Returns tt p'
    /\ world p' = world p
    /\ command_index p' = Z.of_nat i + 1.
Proof.
  intros Htable Hindex Hcmd Hmax Himage Hclear.
  assert (Hreturns : returns_status (textures (state (world p))) (name, params) = true)
    by (destruct name; try reflexivity; congruence).
  rewrite (tick_step commands p i (name, params) Htable Hindex Hcmd Hmax Hreturns).
  eexists. split; [reflexivity|].
  cbn [with_sdl_calls with_command_index with_world world command_index].
  split; [|rewrite Hindex; reflexivity].
  unfold run_command. destruct name; try reflexivity; congruence.
Qed.

Lemma placeholder_frame_witness :
  exists p',
    tick [(GOTO, [("SYMBOL", "start")])] (loop_start world_with_char_png) = Returns tt p'
    /\ world p' = world (loop_start world_with_char_png)
    /\ command_index p' = Z.of_nat 0 + 1.
Proof.
  apply (placeholder_frame [(GOTO, [("SYMBOL", "start")])] (loop_start world_with_char_png)
           0 GOTO [("SYMBOL", "start")]).
  - reflexivity.
  - reflexivity.
  - reflexivity.
  - vm_compute. discriminate.
  - discriminate.
  - discriminate.
Defined.

(** ** Further properties: the quit event and the release *)

Lemma main_loop_no_quit polls commands p :
  Forall (fun found => is_quit found = false) polls ->
  main_loop polls commands p
  = match ticks (length polls) commands p with
    | Returns _ p' => Returns false p'
    | Throws e p' => Throws e p'
    | Undefined => Undefined
    end.
Proof.
  intros Hpolls. revert p. induction Hpolls as [|found polls Hfound _ IH]; intros p.
  - reflexivity.
  - cbn [main_loop length ticks].
    assert (Hstep : main_loop (found :: polls) commands p
                    = (_ ← tick commands; main_loop polls commands) p).
    { destruct found as [|type]; [reflexivity|].
      cbn [main_loop]. cbn [is_quit] in Hfound. rewrite Hfound. reflexivity. }
    cbn [main_loop] in Hstep. rewrite Hstep. unfold mbind, M_bind.
    destruct (tick commands p) as [[] p1|e p1|]; [apply IH|reflexivity..].
Qed.

(** X19. A quit event ends the loop at once: the frames of the polls before
    it run, the frame in which it is found runs no command and draws nothing,
    and no poll after it is looked at. *)
Theorem main_loop_quit before after commands p :
  Forall (fun found => is_quit found = false) before ->
  main_loop (before ++ event SDL_QUIT :: after) commands p
  = match ticks (length before) commands p with
    | Returns _ p' => Returns true p'
    | Throws e p' => Throws e p'
    | Undefined => Undefined
    end.
Proof.
  intros Hbefore. revert p. induction Hbefore as [|found polls Hfound _ IH]; intros p.
  - reflexivity.
  - cbn [app length ticks].
    assert (Hstep : main_loop (found :: (polls ++ event SDL_QUIT :: after)) commands p
                    = (_ ← tick commands;
                       main_loop (polls ++ event SDL_QUIT :: after) commands) p).
    { destruct found as [|type]; [reflexivity|].
      cbn [main_loop]. cbn [is_quit] in Hfound. rewrite Hfound. reflexivity. }
    rewrite Hstep. unfold mbind, M_bind.
    destruct (tick commands p) as [[] p1|e p1|]; [apply IH|reflexivity..].
Qed.

Lemma main_loop_quit_witness :
  main_loop ([no_event; event 768] ++ event SDL_QUIT :: [no_event]) [(TEXT, [])]
    (loop_start world_with_char_png)
  = match ticks (length [no_event; event 768]) [(TEXT, [])] (loop_start world_with_char_png) with
    | Returns _ p' => Returns true p'
    | Throws e p' => Throws e p'
    | Undefined => Undefined
    end.
Proof.
  apply (main_loop_quit [no_event; event 768] [no_event]).
  repeat apply List.Forall_cons; try apply List.Forall_nil; reflexivity.
Defined.

Lemma main_loop_frame polls commands : forall p quit p',
  table_of_behaviours (COMMAND_FN_MAP p) ->
  main_loop polls commands p = Returns quit p' ->
  textures (state (world p')) = textures (state (world p)).
Proof.
  induction polls as [|found polls IH]; intros p quit p' Htable.
  - intros [= _ <-]. reflexivity.
  - assert (Hcases : main_loop (found :: polls) commands p = Returns quit p' ->
                     p' = p
                     \/ (_ ← tick commands; main_loop polls commands) p = Returns quit p').
    { destruct found as [|type]; [auto|]. cbn [main_loop].
      destruct (type =? SDL_QUIT); [intros [= _ <-]|]; auto. }
    intros Hloop. destruct (Hcases Hloop) as [->|Hstep]; [reflexivity|].
    revert Hstep. unfold mbind, M_bind.
    pose proof (tick_frame commands p) as Htick.
    destruct (tick commands p) as [[] p1|e p1|]; [|discriminate..].
    destruct (Htick p1 Htable eq_refl) as [Htex Htable1].
    intros Hrest. rewrite (IH p1 quit p' Htable1 Hrest). exact Htex.
Qed.

(** Start-up from the initial process leaves the registered table and
    textures that are pairwise distinct. *)
Lemma startup_fresh files source commands p :
  startup files source initial_process = Returns commands p ->
  COMMAND_FN_MAP p = COMMAND_FN_MAP_registered /\ textures_fresh p.
Proof.
  unfold startup. unfold mbind at 1, M_bind, zoom.
  destruct (parse source (cerr (world initial_process))) as [cmds log|e log|];
    [|discriminate..].
  unfold mbind at 1, M_bind, modify. unfold mbind at 1, M_bind.
  match goal with |- context [preload files cmds ?q] => set (p0 := q) end.
  assert (Hfresh0 : textures_fresh p0) by exact textures_fresh_initial.
  destruct (preload_frame files cmds p0) as (p1 & Hpre & _ & Htable & _).
  destruct (preload_fresh files cmds p0 Hfresh0) as (p1' & Hpre' & Hfresh).
  rewrite Hpre in Hpre'. injection Hpre' as <-. rewrite Hpre.
  unfold mret, M_ret. intros [= _ <-]. split; [exact Htable|exact Hfresh].
Qed.

Lemma destroyed_release st :
  destroyed (release st) = (in_key_order (textures st)).*2.
Proof.
  unfold release, destroyed. rewrite omap_app. cbn [omap list_omap].
  rewrite app_nil_r. induction (in_key_order (textures st)) as [|entry entries IH];
    [reflexivity|]. cbn. f_equal. exact IH.
Qed.

(** Distinct textures under distinct keys: the values that are not [NULL]
    have no duplicate. *)
Lemma textures_distinct_NoDup (tx : gmap string Z) :
  textures_distinct tx ->
  NoDup (filter (fun texture => texture <> NULL) (map_to_list tx).*2).
Proof.
  intros Hdistinct.
  assert (Hgen : forall entries : list (string * Z),
    NoDup entries ->
    (forall key texture, (key, texture) ∈ entries -> tx !! key = Some texture) ->
    NoDup (filter (fun texture => texture <> NULL) entries.*2)).
  { induction entries as [|[key texture] entries IH]; intros Hnodup Hin.
    - constructor.
    - apply NoDup_cons in Hnodup as [Hfresh Hnodup].
      cbn [fmap list_fmap snd]. rewrite filter_cons.
      assert (Hrest : NoDup (filter (fun texture => texture <> NULL) entries.*2)).
      { apply IH; [exact Hnodup|]. intros k t Hkt. apply Hin. right. exact Hkt. }
      destruct (decide (texture <> NULL)) as [Hnonnull|_]; [|exact Hrest].
      apply NoDup_cons. split; [|exact Hrest].
      intros Hdup. apply list_elem_of_filter in Hdup as [_ Hdup].
      apply list_elem_of_fmap in Hdup as ([key' texture'] & Heq & Hentry).
      cbn [snd] in Heq. subst texture'.
      assert (key = key').
      { apply (Hdistinct key key' texture Hnonnull).
        - apply Hin. left.
        - apply Hin. right. exact Hentry. }
      subst key'. contradiction. }
  apply Hgen; [apply NoDup_map_to_list|].
  intros key texture. apply elem_of_map_to_list.
Qed.

(** X20. A run from start-up to the quit event returns 0 after releasing, in
    key order, exactly the textures the map holds, then the renderer, the
    window and SDL; no texture other than [NULL] is destroyed twice. *)
Theorem main_releases_each_texture_once files source polls status calls p' :
  main_until_quit files source polls initial_process = Returns (Some (status, calls)) p' ->
  status = 0
  /\ calls = map (fun entry => SDL_DestroyTexture entry.2)
               (in_key_order (textures (state (world p'))))
             ++ [SDL_DestroyRenderer; SDL_DestroyWindow; SDL_Quit]
  /\ destroyed calls ≡ₚ (map_to_list (textures (state (world p')))).*2
  /\ NoDup (filter (fun texture => texture <> NULL) (destroyed calls)).
Proof.
  unfold main_until_quit. unfold mbind at 1, M_bind.
  destruct (startup files source initial_process) as [commands p0|e p0|] eqn:Hstart;
    [|discriminate..].
  destruct (startup_fresh files source commands p0 Hstart) as [Htable (_ & _ & Hdistinct)].
  unfold mbind at 1, M_bind.
  destruct (main_loop polls commands p0) as [quit p1|e p1|] eqn:Hloop; [|discriminate..].
  assert (Htex : textures (state (world p1)) = textures (state (world p0))).
  { apply (main_loop_frame polls commands p0 quit p1); [|exact Hloop].
    rewrite Htable. exact COMMAND_FN_MAP_registered_behaviours. }
  destruct quit; [|discriminate].
  unfold_monad. intros [= <- <- <-].
  split; [reflexivity|]. split; [reflexivity|].
  rewrite destroyed_release.
  destruct (in_key_order_spec (textures (state (world p1)))) as (Hperm & _).
  split.
  - rewrite Hperm. reflexivity.
  - rewrite Hperm. apply textures_distinct_NoDup. rewrite Htex. exact Hdistinct.
Qed.

Lemma main_releases_each_texture_once_witness :
  exists p',
    0 = 0
    /\ [SDL_DestroyTexture 2; SDL_DestroyRenderer; SDL_DestroyWindow; SDL_Quit]
       = map (fun entry => SDL_DestroyTexture entry.2)
           (in_key_order (textures (state (world p'))))
         ++ [SDL_DestroyRenderer; SDL_DestroyWindow; SDL_Quit]
    /\ destroyed [SDL_DestroyTexture 2; SDL_DestroyRenderer; SDL_DestroyWindow; SDL_Quit]
       ≡ₚ (map_to_list (textures (state (world p')))).*2
    /\ NoDup (filter (fun texture => texture <> NULL)
                (destroyed [SDL_DestroyTexture 2; SDL_DestroyRenderer;
                            SDL_DestroyWindow; SDL_Quit])).
Proof.
  eexists.
  apply (main_releases_each_texture_once char_png
           (portrait_script +:+ portrait_script) [no_event; event SDL_QUIT]).
  reflexivity.
Defined.
